(** * CodeActSWEAgent: response interpretation, history assembly, truncation

    A shallow embedding of [agenthub/codeact_swe_agent/codeact_swe_agent.py].

    Python text ([str]) is a sequence of Unicode code points, modelled as
    [list N].  Python integers are [Z].  The model client is an external
    collaborator: [step] is a small command tree with one effect, the call
    to [llm.completion], and one failure mode, a raised exception. *)

From Stdlib Require Import List Bool Arith ZArith NArith Lia String Ascii.
From Stdlib Require Import DecimalString.
From Stdlib Require QArith_base.
Import ListNotations.

Set Implicit Arguments.
Open Scope list_scope.

(** ** Text *)

Module Py.

(** A character is a code point; text is a list of them. *)
Definition char := N.
Definition str := list char.

(** An ASCII literal of the source, as text. *)
Definition lit (s : string) : str :=
  List.map N_of_ascii (list_ascii_of_string s).

(** [len(s)] *)
Definition len (s : str) : Z := Z.of_nat (List.length s).

(** [s == t] *)
Fixpoint str_eqb (s t : str) : bool :=
  match s, t with
  | [], [] => true
  | a :: s', b :: t' => N.eqb a b && str_eqb s' t'
  | _, _ => false
  end.

(** [s.startswith(t)] *)
Fixpoint startswith (t s : str) : bool :=
  match t, s with
  | [], _ => true
  | a :: t', b :: s' => N.eqb a b && startswith t' s'
  | _ :: _, [] => false
  end.

(** [t in s] *)
Fixpoint contains (t s : str) : bool :=
  startswith t s ||
  match s with
  | [] => false
  | _ :: s' => contains t s'
  end.

(** [s.find(t)], counted from [pos]; [None] is Python's -1. *)
Fixpoint find_from (t s : str) (pos : nat) : option nat :=
  if startswith t s then Some pos
  else match s with
       | [] => None
       | _ :: s' => find_from t s' (S pos)
       end.

(** [s.rfind(t)], counted from [pos]. *)
Fixpoint rfind_from (t s : str) (pos : nat) : option nat :=
  match s with
  | [] => if startswith t [] then Some pos else None
  | _ :: s' =>
      match rfind_from t s' (S pos) with
      | Some i => Some i
      | None => if startswith t s then Some pos else None
      end
  end.

(** [str.isspace] on one code point (CPython's [_PyUnicode_IsWhitespace]). *)
Definition isspace (c : char) : bool :=
  ((9 <=? c) && (c <=? 13) || (28 <=? c) && (c <=? 32)
   || (c =? 133) || (c =? 160) || (c =? 5760)
   || (8192 <=? c) && (c <=? 8202)
   || (c =? 8232) || (c =? 8233) || (c =? 8239) || (c =? 8287)
   || (c =? 12288))%N.

Fixpoint lstrip (s : str) : str :=
  match s with
  | [] => []
  | c :: s' => if isspace c then lstrip s' else s
  end.

Definition rstrip (s : str) : str := rev (lstrip (rev s)).

(** [s.strip()] *)
Definition strip (s : str) : str := rstrip (lstrip s).

(** [s.replace(old, new)]: every occurrence, left to right, without
    overlap.  [skip] counts the characters of an occurrence still to drop. *)
Fixpoint replace_go (old new s : str) (skip : nat) : str :=
  match s with
  | [] => []
  | c :: s' =>
      match skip with
      | S k => replace_go old new s' k
      | O =>
          if startswith old s
          then new ++ replace_go old new s' (List.length old - 1)
          else c :: replace_go old new s' 0
      end
  end.

Definition replace (old new s : str) : str :=
  match old with
  | [] => new ++ flat_map (fun c => c :: new) s
  | _ :: _ => replace_go old new s 0
  end.

(** [s[:j]] for any integer [j]. *)
Definition slice_to (s : str) (j : Z) : str :=
  if (j <? 0)%Z then firstn (Z.to_nat (len s + j)) s
  else firstn (Z.to_nat j) s.

(** [s[i:]] for any integer [i]. *)
Definition slice_from (s : str) (i : Z) : str :=
  if (i <? 0)%Z then skipn (Z.to_nat (len s + i)) s
  else skipn (Z.to_nat i) s.

(** [s[b:e]] for indices inside the text. *)
Definition slice (s : str) (b e : nat) : str := firstn (e - b) (skipn b s).

(** [s.split(sep)] for a one-character separator. *)
Fixpoint split (sep : char) (s : str) : list str :=
  match s with
  | [] => [[]]
  | c :: s' =>
      if N.eqb c sep then [] :: split sep s'
      else match split sep s' with
           | [] => [[c]]
           | l :: ls => (c :: l) :: ls
           end
  end.

(** [sep.join(parts)] *)
Fixpoint join (sep : str) (parts : list str) : str :=
  match parts with
  | [] => []
  | [p] => p
  | p :: ps => p ++ sep ++ join sep ps
  end.

(** [str(n)] for an integer. *)
Definition str_of_int (n : Z) : str :=
  lit (NilZero.string_of_int (Z.to_int n)).

End Py.
Import Py.

Definition NL : str := lit (String (ascii_of_nat 10) EmptyString).


(** ** Regular expressions

    The four patterns of [step] are sequences of literal text, one
    [.*] or [.*?] under [re.DOTALL] (the dot matches every character,
    newlines too) and at most one capturing group.  [match_at] is the
    backtracking matcher of [re]: a greedy star tries the longest body
    first, a lazy one the shortest, and the first success is the match. *)

Module Re.

Inductive token : Type :=
| Lit (s : str)
| DotStar (greedy : bool)
| GroupOpen
| GroupClose.

Definition pattern := list token.

(** A match object: the span of the whole match and of group 1. *)
Record Match : Type := mkMatch {
  m_start : nat;
  m_end : nat;
  m_group1 : option (nat * nat)
}.

Fixpoint match_at (p : pattern) (rest : str) (pos : nat)
    (gopen : option nat) (g1 : option (nat * nat))
    : option (nat * option (nat * nat)) :=
  match p with
  | [] => Some (pos, g1)
  | Lit l :: p' =>
      if startswith l rest
      then match_at p' (skipn (List.length l) rest) (pos + List.length l) gopen g1
      else None
  | GroupOpen :: p' => match_at p' rest pos (Some pos) g1
  | GroupClose :: p' =>
      match_at p' rest pos gopen
        (match gopen with Some b => Some (b, pos) | None => g1 end)
  | DotStar greedy :: p' =>
      (fix star (rest : str) (pos : nat) {struct rest} :=
         match rest with
         | [] => match_at p' [] pos gopen g1
         | _ :: rest' =>
             if greedy then
               match star rest' (S pos) with
               | Some r => Some r
               | None => match_at p' rest pos gopen g1
               end
             else
               match match_at p' rest pos gopen g1 with
               | Some r => Some r
               | None => star rest' (S pos)
               end
         end) rest pos
  end.

(** [re.search]: the leftmost position at which the pattern matches. *)
Fixpoint search_from (p : pattern) (rest : str) (pos : nat) : option Match :=
  match match_at p rest pos None None with
  | Some (e, g) => Some (mkMatch pos e g)
  | None =>
      match rest with
      | [] => None
      | _ :: rest' => search_from p rest' (S pos)
      end
  end.

Definition search (p : pattern) (s : str) : option Match := search_from p s 0.

(** [m.group(0)] *)
Definition group0 (m : Match) (s : str) : str := slice s (m_start m) (m_end m).

(** [m.group(1)]; [None] when the group took no part in the match. *)
Definition group1 (m : Match) (s : str) : option str :=
  match m_group1 m with
  | Some (b, e) => Some (slice s b e)
  | None => None
  end.

End Re.
Import Re.


(** ** Events, messages and conversation state *)

Inductive EventSource : Type := AGENT | USER.

(** The action classes the agent imports; [OtherAction] stands for any
    other subclass of [Action] found in a history.  [AgentFinishAction None]
    is the constructor called without a [thought] argument. *)
Inductive Action : Type :=
| AgentFinishAction (thought : option str)
| BrowseInteractiveAction (browser_actions thought : str)
| CmdRunAction (command thought : str)
| IPythonRunCellAction (code thought kernel_init_code : str)
| MessageAction (content : str) (wait_for_response : bool)
| OtherAction.

Inductive Observation : Type :=
| BrowserOutputObservation (content : str)
| CmdOutputObservation (content : str) (command_id exit_code : Z)
| IPythonRunCellObservation (content : str)
| OtherObservation.

(** A history entry: an action with the [source] attribute the event stream
    gave it, or an observation. *)
Inductive Event : Type :=
| ActionEvent (source : option EventSource) (a : Action)
| ObservationEvent (obs : Observation).

Inductive Role : Type := system | user | assistant.

(** The dict [{'role': ..., 'content': ...}]. *)
Record Message : Type := mkMessage { role : Role; content : str }.

Record State : Type := mkState {
  history : list Event;
  iteration : Z;
  max_iterations : Z;
  num_of_chars : Z
}.

(** The part of a completion response the agent reads:
    [response.choices[i].message.content].  The content is a text; a
    choice whose content is [None] is outside this model. *)
Record ChatMessage : Type := mkChatMessage { cm_content : str }.
Record Choice : Type := mkChoice { message : ChatMessage }.
Record Response : Type := mkResponse { choices : list Choice }.

Inductive Exception : Type := IndexError | AttributeError.

(** ** Module-level functions *)

Definition exec_open (lang : str) : str := lit "<execute_" ++ lang ++ lit ">".
Definition exec_close (lang : str) : str := lit "</execute_" ++ lang ++ lit ">".

(** One round of the loop of [parse_response]. *)
Definition repair_tag (action lang : str) : str :=
  if contains (exec_open lang) action && negb (contains (exec_close lang) action)
  then action ++ exec_close lang
  else action.

Definition langs : list str := [lit "bash"; lit "ipython"; lit "browse"].

Definition repair_tags (action : str) : str := fold_left repair_tag langs action.

Definition parse_response (response : Response) : Exception + str :=
  match choices response with
  | [] => inl IndexError
  | c :: _ => inr (repair_tags (cm_content (message c)))
  end.

Definition action_to_str (action : Action) : str :=
  match action with
  | CmdRunAction command thought =>
      thought ++ lit "
<execute_bash>
" ++ command ++ lit "
</execute_bash>"
  | IPythonRunCellAction code thought _ =>
      thought ++ lit "
<execute_ipython>
" ++ code ++ lit "
</execute_ipython>"
  | BrowseInteractiveAction browser_actions thought =>
      thought ++ lit "
<execute_browse>
" ++ browser_actions ++ lit "
</execute_browse>"
  | MessageAction content _ => content
  | _ => []
  end.

Definition get_action_message (source : option EventSource) (action : Action)
    : option Message :=
  match action with
  | BrowseInteractiveAction _ _ | CmdRunAction _ _
  | IPythonRunCellAction _ _ _ | MessageAction _ _ =>
      Some {| role := match source with Some USER => user | _ => assistant end;
              content := action_to_str action |}
  | _ => None
  end.

Definition truncation_marker : str := lit "
[... Observation truncated due to length ...]
".

Definition truncate_observation (observation : str) (max_chars : Z) : str :=
  if (len observation <=? max_chars)%Z then observation
  else
    let half := (max_chars / 2)%Z in
    slice_to observation half ++ truncation_marker
      ++ slice_from observation (- half).

(** The default value of [max_chars]. *)
Definition default_max_chars : Z := 10000.

Definition image_marker : str := lit "![image](data:image/png;base64,".
Definition image_placeholder : str :=
  lit "![image](data:image/png;base64, ...) already displayed to user".

Definition get_observation_message (obs : Observation) : option Message :=
  match obs with
  | CmdOutputObservation c command_id exit_code =>
      let content := lit "OBSERVATION:
" ++ truncate_observation c default_max_chars in
      let content := content ++
        (lit "
[Command " ++ str_of_int command_id ++ lit " finished with exit code "
           ++ str_of_int exit_code ++ lit "]]") in
      Some {| role := user; content := content |}
  | IPythonRunCellObservation c =>
      let content := lit "OBSERVATION:
" ++ c in
      let splitted := split 10%N content in
      let splitted :=
        List.map (fun line => if contains image_marker line
                              then image_placeholder else line) splitted in
      let content := join NL splitted in
      let content := truncate_observation content default_max_chars in
      Some {| role := user; content := content |}
  | BrowserOutputObservation c =>
      let content := lit "OBSERVATION:
" ++ truncate_observation c default_max_chars in
      Some {| role := user; content := content |}
  | OtherObservation => None
  end.

(** ** The agent *)

(** The patterns of [step], all searched with [re.DOTALL]. *)
Definition finish_re : pattern :=
  [Lit (lit "<finish>"); DotStar true; Lit (lit "</finish>")].
Definition bash_re : pattern :=
  [Lit (lit "<execute_bash>"); GroupOpen; DotStar false; GroupClose;
   Lit (lit "</execute_bash>")].
Definition ipython_re : pattern :=
  [Lit (lit "<execute_ipython>"); GroupOpen; DotStar false; GroupClose;
   Lit (lit "</execute_ipython>")].
Definition browse_re : pattern :=
  [Lit (lit "<execute_browse>"); GroupOpen; DotStar true; GroupClose;
   Lit (lit "</execute_browse>")].

Definition jupyter_kernel_init_code : str := lit "from agentskills import *".

(** [m.group(1).strip()]: the method call fails on [None]. *)
Definition group1_strip (m : Match) (s : str) : Exception + str :=
  match group1 m s with
  | Some g => inr (strip g)
  | None => inl AttributeError
  end.

(** The tail of [step]: the cascade over [action_str] that builds the
    returned action. *)
Definition classify (action_str : str) : Exception + Action :=
  match search finish_re action_str with
  | Some finish_command =>
      let thought := strip (replace (group0 finish_command action_str) [] action_str) in
      inr (AgentFinishAction (Some thought))
  | None =>
  match search bash_re action_str with
  | Some bash_command =>
      let thought := strip (replace (group0 bash_command action_str) [] action_str) in
      match group1_strip bash_command action_str with
      | inl e => inl e
      | inr command_group =>
          if str_eqb (strip command_group) (lit "exit")
          then inr (AgentFinishAction None)
          else inr (CmdRunAction command_group thought)
      end
  | None =>
  match search ipython_re action_str with
  | Some python_code =>
      match group1_strip python_code action_str with
      | inl e => inl e
      | inr code_group =>
          let thought := strip (replace (group0 python_code action_str) [] action_str) in
          inr (IPythonRunCellAction code_group thought jupyter_kernel_init_code)
      end
  | None =>
  match search browse_re action_str with
  | Some browse_command =>
      match group1_strip browse_command action_str with
      | inl e => inl e
      | inr browse_actions =>
          let thought := strip (replace (group0 browse_command action_str) [] action_str) in
          inr (BrowseInteractiveAction browse_actions thought)
      end
  | None => inr (MessageAction action_str true)
  end end end end.

(** [next((m for m in reversed(messages) if m['role'] == 'user'), None)] *)
Definition is_user (m : Message) : bool :=
  match role m with user => true | _ => false end.

Definition latest_user (messages : list Message) : option Message :=
  List.find is_user (rev messages).

(** In-place update of the dict [latest_user] returns: the entries of the
    list are distinct objects, each built by its own dict display, so only
    the last entry with role [user] changes. *)
Fixpoint update_first_user (f : Message -> Message) (ms : list Message)
    : list Message :=
  match ms with
  | [] => []
  | m :: ms' => if is_user m then f m :: ms' else m :: update_first_user f ms'
  end.

Definition update_latest_user (f : Message -> Message) (ms : list Message)
    : list Message :=
  rev (update_first_user f (rev ms)).

Definition is_exit (m : Message) : bool :=
  str_eqb (strip (content m)) (lit "/exit").

(** What one call of [step] does: return an action with the state as the
    call left it, raise, or call [llm.completion] and go on with its
    response. *)
Record Request : Type := mkRequest {
  req_messages : list Message;
  req_stop : list str;
  req_temperature : QArith_base.Q
}.

Inductive Step : Type :=
| Return (a : Action) (st : State)
| Raise (e : Exception) (st : State)
| Completion (req : Request) (k : Response -> Step).

Definition sum_Z (l : list Z) : Z := fold_left Z.add l 0%Z.

(** The texts the agent imports from [agenthub.codeact_swe_agent.prompt]. *)
Record Prompt : Type := mkPrompt {
  COMMAND_DOCS : str;
  MINIMAL_SYSTEM_PREFIX : str;
  SWE_EXAMPLE : str;
  SYSTEM_SUFFIX : str
}.

Section Agent.

Variable prompt : Prompt.

Definition get_system_message : str :=
  MINIMAL_SYSTEM_PREFIX prompt ++ NL ++ NL ++ COMMAND_DOCS prompt ++ NL ++ NL
    ++ SYSTEM_SUFFIX prompt.

Definition get_in_context_example : str := SWE_EXAMPLE prompt.

Definition system_message : str := get_system_message.

Definition in_context_example : str :=
  lit "Here is an example of how you can interact with the environment for task solving:
" ++ get_in_context_example ++ lit "

NOW, LET'S START!".

Definition event_message (event : Event) : option Message :=
  match event with
  | ActionEvent source a => get_action_message source a
  | ObservationEvent obs => get_observation_message obs
  end.

(** The list before the reminder: the two fixed messages, then one message
    per event that has one. *)
Definition history_messages (st : State) : list Message :=
  fold_left
    (fun messages event =>
       match event_message event with
       | Some message => messages ++ [message]
       | None => messages
       end)
    (history st)
    [ {| role := system; content := system_message |};
      {| role := user; content := in_context_example |} ].

Definition reminder (st : State) : str :=
  lit "

ENVIRONMENT REMINDER: You have "
  ++ str_of_int (max_iterations st - iteration st)
  ++ lit " turns left to complete the task.".

Definition _get_messages (st : State) : list Message :=
  let messages := history_messages st in
  match latest_user messages with
  | Some latest_user_message =>
      if is_exit latest_user_message then messages
      else update_latest_user
             (fun m => {| role := role m; content := content m ++ reminder st |})
             messages
  | None => messages
  end.

Definition stop_sequences : list str :=
  [lit "</execute_ipython>"; lit "</execute_bash>"; lit "</execute_browse>"].

Definition step (st : State) : Step :=
  let messages := _get_messages st in
  if match latest_user messages with
     | Some latest_user_message => is_exit latest_user_message
     | None => false
     end
  then Return (AgentFinishAction None) st
  else
    Completion
      {| req_messages := messages; req_stop := stop_sequences;
         req_temperature := QArith_base.Qmake 0 1 |}
      (fun response =>
         match parse_response response with
         | inl e => Raise e st
         | inr action_str =>
             let st' :=
               {| history := history st; iteration := iteration st;
                  max_iterations := max_iterations st;
                  num_of_chars :=
                    num_of_chars st
                    + (sum_Z (List.map (fun m => len (content m)) messages)
                       + len action_str) |} in
             match classify action_str with
             | inl e => Raise e st'
             | inr a => Return a st'
             end
         end).

End Agent.

(** ** Running a step against a model client

    A client is any object with a [completion] method; calling it may change
    the client.  [run] plays a [Step] against a client and counts the
    calls. *)
Record Client : Type := mkClient {
  client_state : Type;
  completion : client_state -> Request -> Response * client_state
}.

Inductive Outcome : Type :=
| Returned (a : Action) (st : State)
| Raised (e : Exception) (st : State).

Fixpoint run (c : Client) (l : client_state c) (calls : nat) (p : Step)
    : Outcome * client_state c * nat :=
  match p with
  | Return a st => (Returned a st, l, calls)
  | Raise e st => (Raised e st, l, calls)
  | Completion req k =>
      let (response, l') := completion c l req in
      run c l' (S calls) (k response)
  end.

(** * Vocabulary of the properties *)

(** [t] occurs in [s] at index [i]. *)
Definition occurs_at (t s : str) (i : nat) : Prop :=
  exists pre post, s = pre ++ t ++ post /\ List.length pre = i.

(** [t] occurs in [s] at [i] and nowhere before. *)
Definition first_occurrence (t s : str) (i : nat) : Prop :=
  occurs_at t s i /\ forall j, occurs_at t s j -> i <= j.

(** [t] occurs in [s] at [i] and nowhere after. *)
Definition last_occurrence (t s : str) (i : nat) : Prop :=
  occurs_at t s i /\ forall j, occurs_at t s j -> j <= i.

(** The two shapes of pattern the agent uses. *)
Definition tagged (o : str) (greedy : bool) (c : str) : pattern :=
  [Lit o; GroupOpen; DotStar greedy; GroupClose; Lit c].
Definition bare (o c : str) : pattern := [Lit o; DotStar true; Lit c].

(** Where the body of a star ends: at the last closing text for a greedy
    star, at the first for a lazy one. *)
Definition locate (greedy : bool) (c rest : str) : option nat :=
  if greedy then rfind_from c rest 0 else find_from c rest 0.

(** The opening text's first index, and the length of the body after it. *)
Definition tag_span (greedy : bool) (o c s : str) : option (nat * nat) :=
  match find_from o s 0 with
  | None => None
  | Some b =>
      match locate greedy c (skipn (b + List.length o) s) with
      | Some i => Some (b, i)
      | None => None
      end
  end.

(** [s] holds an opening text [o] and, after it, a closing text [c]. *)
Definition has_pair (o c s : str) : Prop :=
  exists pre body post, s = pre ++ o ++ body ++ c ++ post.

(** [pre ++ o ++ body ++ c ++ post] splits [s] at the span a search for
    [o], a star and [c] matches: [o] at its first index in [s]; [c] at its
    last index after that for a greedy star, at its first for a lazy one. *)
Definition matched_span (greedy : bool) (o c s pre body post : str) : Prop :=
  s = pre ++ o ++ body ++ c ++ post
  /\ find_from o s 0 = Some (List.length pre)
  /\ locate greedy c (body ++ c ++ post) = Some (List.length body).

Definition span_match (o c pre body : str) (g : bool) : Match :=
  let b := List.length pre + List.length o in
  mkMatch (List.length pre) (b + List.length body + List.length c)
    (if g then Some (b, b + List.length body) else None).

Module Tags.

Definition finish_open : str := lit "<finish>".
Definition finish_close : str := lit "</finish>".
Definition bash_open : str := lit "<execute_bash>".
Definition bash_close : str := lit "</execute_bash>".
Definition ipython_open : str := lit "<execute_ipython>".
Definition ipython_close : str := lit "</execute_ipython>".
Definition browse_open : str := lit "<execute_browse>".
Definition browse_close : str := lit "</execute_browse>".

(** The four tag kinds, in the order [step] tries them. *)
Inductive kind : Type := Finish | Command | Code | Browse.

Definition open_tag (k : kind) : str :=
  match k with
  | Finish => finish_open | Command => bash_open
  | Code => ipython_open | Browse => browse_open
  end.

Definition close_tag (k : kind) : str :=
  match k with
  | Finish => finish_close | Command => bash_close
  | Code => ipython_close | Browse => browse_close
  end.

Definition regex_of (k : kind) : pattern :=
  match k with
  | Finish => finish_re | Command => bash_re
  | Code => ipython_re | Browse => browse_re
  end.

(** Which stars of the source are greedy: [.*] in the finish and browse
    patterns, [.*?] in the other two. *)
Definition greedy (k : kind) : bool :=
  match k with
  | Finish | Browse => true
  | Command | Code => false
  end.

Definition has_group (k : kind) : bool :=
  match k with Finish => false | _ => true end.

Definition pair_in (k : kind) (s : str) : Prop :=
  has_pair (open_tag k) (close_tag k) s.

End Tags.
Import Tags.

(** The match [m] in [s] runs from the first opening tag of kind [k] to the
    first closing tag after it. *)
Definition shortest_span (k : kind) (s : str) (m : Match) : Prop :=
  exists pre body post,
    s = pre ++ open_tag k ++ body ++ close_tag k ++ post
    /\ group0 m s = open_tag k ++ body ++ close_tag k
    /\ group1 m s = (if has_group k then Some body else None)
    /\ first_occurrence (open_tag k) s (List.length pre)
    /\ first_occurrence (close_tag k) (body ++ close_tag k ++ post)
         (List.length body).

(** The match [m] in [s] runs from the first opening tag of kind [k] to the
    last closing tag of the text. *)
Definition longest_span (k : kind) (s : str) (m : Match) : Prop :=
  exists pre body post,
    s = pre ++ open_tag k ++ body ++ close_tag k ++ post
    /\ group0 m s = open_tag k ++ body ++ close_tag k
    /\ group1 m s = (if has_group k then Some body else None)
    /\ first_occurrence (open_tag k) s (List.length pre)
    /\ last_occurrence (close_tag k) s
         (List.length (pre ++ open_tag k ++ body)).

(** The closing tag [parse_response] appends for [lang], if any. *)
Definition closing_if_unterminated (lang s : str) : str :=
  if contains (exec_open lang) s && negb (contains (exec_close lang) s)
  then exec_close lang
  else [].

(** A prompt of empty texts, and a client that always answers [text]. *)
Definition no_prompt : Prompt := mkPrompt [] [] [] [].

Definition canned (text : str) : Client :=
  {| client_state := unit;
     completion := fun l _ => (mkResponse [mkChoice (mkChatMessage text)], l) |}.


(** The loop of [get_observation_message] over the lines of a code
    observation: a line with an image in it becomes the placeholder. *)
Definition mask_line (line : str) : str :=
  if contains image_marker line then image_placeholder else line.

Definition mask_images (content : str) : str :=
  join NL (List.map mask_line (split 10%N content)).

Definition observation_prefix : str := lit "OBSERVATION:
".

(** The messages of the events of a history, in order. *)
Definition event_messages (events : list Event) : list Message :=
  flat_map (fun e => match event_message e with Some m => [m] | None => [] end)
    events.

(** The last [user] message of the history, before any reminder, trims to
    [/exit]. *)
Definition exit_pending (prompt : Prompt) (st : State) : bool :=
  match latest_user (history_messages prompt st) with
  | Some m => is_exit m
  | None => false
  end.

(** The request [step] sends to the model client. *)
Definition step_request (prompt : Prompt) (st : State) : Request :=
  {| req_messages := _get_messages prompt st;
     req_stop := stop_sequences;
     req_temperature := QArith_base.Qmake 0 1 |}.

(** Every opening tag of kind [k] in [s] has, somewhere in [s], its closing
    tag: the test of [parse_response] finds nothing to repair for [k]. *)
Definition terminated (k : kind) (s : str) : bool :=
  implb (contains (open_tag k) s) (contains (close_tag k) s).

(** A client whose response has no choice. *)
Definition silent : Client :=
  {| client_state := unit;
     completion := fun l _ => (mkResponse [], l) |}.

(** * Facts about text *)

Module PyFacts.

Lemma str_eqb_eq (s t : str) : str_eqb s t = true <-> s = t.
Proof.
  revert t; induction s as [|a s IH]; intros [|b t]; simpl;
    try (split; [discriminate | discriminate]); [tauto|].
  rewrite andb_true_iff, N.eqb_eq, IH.
  split; [intros [-> ->]; reflexivity | intros [= -> ->]; auto].
Qed.

Lemma startswith_iff (t s : str) :
  startswith t s = true <-> exists post, s = t ++ post.
Proof.
  revert s; induction t as [|a t IH]; intros s; simpl.
  - split; eauto.
  - destruct s as [|b s].
    + split; [discriminate | intros [post H]; discriminate].
    + rewrite andb_true_iff, N.eqb_eq, IH. split.
      * intros [-> [post ->]]; eauto.
      * intros [post [= -> ->]]; eauto.
Qed.

Lemma startswith_app (t post : str) : startswith t (t ++ post) = true.
Proof. apply startswith_iff; eauto. Qed.

Lemma occurs_at_0 (t s : str) : occurs_at t s 0 <-> startswith t s = true.
Proof.
  rewrite startswith_iff. split.
  - intros ([|a pre] & post & -> & Hl); [exists post; reflexivity | discriminate].
  - intros [post ->]. exists [], post; auto.
Qed.

Lemma occurs_at_S (t : str) (a : char) (s : str) (i : nat) :
  occurs_at t (a :: s) (S i) <-> occurs_at t s i.
Proof.
  split.
  - intros ([|b pre] & post & H & Hl); [discriminate|].
    injection H as -> ->. injection Hl as <-. exists pre, post; auto.
  - intros (pre & post & -> & <-). exists (a :: pre), post; auto.
Qed.

Lemma contains_iff (t s : str) :
  contains t s = true <-> exists i, occurs_at t s i.
Proof.
  induction s as [|a s IH]; simpl.
  - rewrite orb_false_r, <- occurs_at_0. split; [eauto|].
    intros [i (pre & post & H & Hl)].
    destruct pre; [exists [], post; auto | discriminate].
  - rewrite orb_true_iff, IH, <- occurs_at_0. split.
    + intros [H | [i H]]; [eauto | exists (S i); apply occurs_at_S, H].
    + intros [[|i] H]; [auto | right; exists i; apply occurs_at_S in H; exact H].
Qed.

Lemma contains_false (t s : str) :
  contains t s = false <-> forall i, ~ occurs_at t s i.
Proof.
  split.
  - intros H i Hi. assert (contains t s = true) by (apply contains_iff; eauto).
    congruence.
  - intros H. destruct (contains t s) eqn:E; [|reflexivity].
    apply contains_iff in E as [i Hi]. destruct (H i Hi).
Qed.

Lemma contains_skipn (t s : str) (k : nat) :
  contains t (skipn k s) = true -> contains t s = true.
Proof.
  revert s; induction k as [|k IH]; intros s H; simpl in *; [exact H|].
  destruct s as [|a s]; [exact H|].
  simpl. rewrite (IH _ H). apply orb_true_r.
Qed.

Lemma find_from_shift (t s : str) (p : nat) :
  find_from t s p = option_map (Nat.add p) (find_from t s 0).
Proof.
  revert p; induction s as [|a s IH]; intros p; simpl.
  - destruct (startswith t []); simpl; f_equal; lia.
  - destruct (startswith t (a :: s)); simpl; [f_equal; lia|].
    rewrite (IH (S p)), (IH 1). destruct (find_from t s 0); simpl; f_equal; lia.
Qed.

Lemma rfind_from_shift (t s : str) (p : nat) :
  rfind_from t s p = option_map (Nat.add p) (rfind_from t s 0).
Proof.
  revert p; induction s as [|a s IH]; intros p; simpl.
  - destruct (startswith t []); simpl; f_equal; lia.
  - rewrite (IH (S p)), (IH 1). destruct (rfind_from t s 0); simpl; [f_equal; lia|].
    destruct (startswith t (a :: s)); simpl; f_equal; lia.
Qed.

(** [find] returns the first occurrence. *)
Lemma find_from_Some (t s : str) (i : nat) :
  find_from t s 0 = Some i <->
  occurs_at t s i /\ forall j, occurs_at t s j -> i <= j.
Proof.
  revert i; induction s as [|a s IH]; intros i; simpl.
  - destruct (startswith t []) eqn:E.
    + split.
      * intros [= <-]. split; [apply occurs_at_0, E | intros; lia].
      * intros [_ H]. apply occurs_at_0 in E. apply H in E. f_equal; lia.
    + split; [discriminate|]. intros [(pre & post & H & Hl) _].
      destruct pre; [|discriminate]. simpl in H.
      assert (startswith t [] = true) by (apply startswith_iff; eauto). congruence.
  - destruct (startswith t (a :: s)) eqn:E.
    + split.
      * intros [= <-]. split; [apply occurs_at_0, E | intros; lia].
      * intros [_ H]. apply occurs_at_0 in E. apply H in E. f_equal; lia.
    + rewrite find_from_shift. split.
      * destruct (find_from t s 0) as [k|] eqn:F; [|discriminate].
        intros [= <-]. destruct (proj1 (IH k) eq_refl) as [Hk Hmin].
        split; [apply occurs_at_S, Hk|].
        intros [|j] Hj; [apply occurs_at_0 in Hj; congruence|].
        apply occurs_at_S, Hmin in Hj. simpl; lia.
      * intros [Hi Hmin]. destruct i as [|i];
          [apply occurs_at_0 in Hi; congruence|].
        apply occurs_at_S in Hi.
        assert (F : find_from t s 0 = Some i).
        { apply IH. split; [exact Hi|]. intros j Hj.
          apply (occurs_at_S t a) in Hj. apply Hmin in Hj. lia. }
        rewrite F. reflexivity.
Qed.

Lemma find_from_None (t s : str) :
  find_from t s 0 = None <-> contains t s = false.
Proof.
  induction s as [|a s IH]; simpl.
  - destruct (startswith t []); simpl; split; congruence.
  - destruct (startswith t (a :: s)); simpl; [split; congruence|].
    rewrite find_from_shift, <- IH.
    destruct (find_from t s 0); simpl; split; congruence.
Qed.

Lemma occurs_at_le (t s : str) (i : nat) :
  occurs_at t s i -> i + List.length t <= List.length s.
Proof.
  intros (pre & post & -> & <-). rewrite !length_app. lia.
Qed.

(** [rfind] returns the last occurrence. *)
Lemma rfind_from_Some (t s : str) (i : nat) :
  rfind_from t s 0 = Some i <->
  occurs_at t s i /\ forall j, occurs_at t s j -> j <= i.
Proof.
  revert i; induction s as [|a s IH]; intros i; simpl.
  - destruct (startswith t []) eqn:E.
    + split.
      * intros [= <-]. split; [apply occurs_at_0, E|].
        intros j Hj. apply occurs_at_le in Hj. simpl in Hj. lia.
      * intros [Hi _]. apply occurs_at_le in Hi. simpl in Hi. f_equal; lia.
    + split; [discriminate|]. intros [Hi _].
      assert (i = 0) by (apply occurs_at_le in Hi; simpl in Hi; lia). subst i.
      apply occurs_at_0 in Hi. congruence.
  - rewrite rfind_from_shift.
    destruct (rfind_from t s 0) as [k|] eqn:F; simpl.
    + destruct (proj1 (IH k) eq_refl) as [Hk Hmax]. split.
      * intros [= <-]. split; [apply occurs_at_S, Hk|].
        intros [|j] Hj; [lia|]. apply occurs_at_S, Hmax in Hj. lia.
      * intros [Hi Hmax']. f_equal.
        apply (occurs_at_S t a) in Hk. apply Hmax' in Hk.
        destruct i as [|i]; [lia|]. apply occurs_at_S, Hmax in Hi. lia.
    + assert (Hnone : forall j, ~ occurs_at t s j).
      { intros j Hj.
        destruct (rfind_from t s 0) eqn:F'; [discriminate|].
        clear F. revert j Hj F'. clear IH.
        induction s as [|b s IHs]; intros j Hj; simpl.
        - destruct (startswith t []) eqn:E'; [discriminate|]. intros _.
          assert (j = 0) by (apply occurs_at_le in Hj; simpl in Hj; lia).
          subst j. apply occurs_at_0 in Hj. congruence.
        - rewrite rfind_from_shift.
          destruct (rfind_from t s 0) eqn:F''; simpl; [discriminate|].
          destruct (startswith t (b :: s)) eqn:E'; [discriminate|]. intros _.
          destruct j as [|j]; [apply occurs_at_0 in Hj; congruence|].
          apply occurs_at_S in Hj. exact (IHs j Hj eq_refl). }
      destruct (startswith t (a :: s)) eqn:E.
      * split.
        -- intros [= <-]. split; [apply occurs_at_0, E|].
           intros [|j] Hj; [lia|]. apply occurs_at_S in Hj. destruct (Hnone j Hj).
        -- intros [Hi _]. destruct i as [|i]; [reflexivity|].
           apply occurs_at_S in Hi. destruct (Hnone i Hi).
      * split; [discriminate|]. intros [Hi _].
        destruct i as [|i]; [apply occurs_at_0 in Hi; congruence|].
        apply occurs_at_S in Hi. destruct (Hnone i Hi).
Qed.

Lemma rfind_from_None (t s : str) :
  rfind_from t s 0 = None <-> contains t s = false.
Proof.
  induction s as [|a s IH]; simpl.
  - destruct (startswith t []); simpl; split; congruence.
  - rewrite rfind_from_shift. destruct (rfind_from t s 0) eqn:F; simpl.
    + split; [discriminate|]. intros H. apply orb_false_iff in H as [_ H].
      apply IH in H. discriminate.
    + destruct IH as [IH _]. rewrite (IH eq_refl), orb_false_r.
      destruct (startswith t (a :: s)); split; congruence.
Qed.

End PyFacts.
Import PyFacts.

(** * Facts about the matcher *)

Module ReFacts.

Lemma locate_None (greedy : bool) (c rest : str) :
  locate greedy c rest = None <-> contains c rest = false.
Proof.
  destruct greedy; [apply rfind_from_None | apply find_from_None].
Qed.

Lemma locate_from (greedy : bool) (c rest : str) (pos : nat) :
  (if greedy then rfind_from c rest pos else find_from c rest pos)
  = option_map (Nat.add pos) (locate greedy c rest).
Proof.
  destruct greedy; [apply rfind_from_shift | apply find_from_shift].
Qed.

Lemma star_group (greedy : bool) (c rest : str) (pos b : nat)
    (g1 : option (nat * nat)) :
  match_at [DotStar greedy; GroupClose; Lit c] rest pos (Some b) g1
  = option_map (fun i => (pos + i + List.length c, Some (b, pos + i)))
      (locate greedy c rest).
Proof.
  transitivity
    (option_map (fun i => (i + List.length c, Some (b, i)))
       (if greedy then rfind_from c rest pos else find_from c rest pos)).
  - revert pos; induction rest as [|a rest IH]; intros pos.
    + simpl. destruct greedy; destruct (startswith c []); reflexivity.
    + destruct greedy.
      * simpl in *. rewrite IH.
        destruct (rfind_from c rest (S pos)); [reflexivity|].
        destruct (startswith c (a :: rest)); reflexivity.
      * simpl in *. destruct (startswith c (a :: rest)); [reflexivity|].
        apply IH.
  - rewrite locate_from. destruct (locate greedy c rest); reflexivity.
Qed.

Lemma star_bare (c rest : str) (pos : nat) :
  match_at [DotStar true; Lit c] rest pos None None
  = option_map (fun i => (pos + i + List.length c, None))
      (locate true c rest).
Proof.
  transitivity
    (option_map (fun i => (i + List.length c, @None (nat * nat)))
       (rfind_from c rest pos)).
  - revert pos; induction rest as [|a rest IH]; intros pos.
    + simpl. destruct (startswith c []); reflexivity.
    + simpl in *. rewrite IH.
      destruct (rfind_from c rest (S pos)); [reflexivity|].
      destruct (startswith c (a :: rest)); reflexivity.
  - unfold locate. rewrite rfind_from_shift.
    destruct (rfind_from c rest 0); reflexivity.
Qed.

Lemma find_from_here (t s : str) (p : nat) :
  startswith t s = true -> find_from t s p = Some p.
Proof. intros H. destruct s; simpl in *; rewrite H; reflexivity. Qed.

Section SearchLit.

Variables (o c : str) (greedy : bool) (p' : pattern).
Variable K : nat -> nat -> option (nat * nat).
Hypothesis Hp' : forall rest pos,
  match_at p' rest pos None None
  = option_map (fun i => (pos + i + List.length c, K pos i))
      (locate greedy c rest).

Lemma search_from_lit (rest : str) (pos : nat) :
  search_from (Lit o :: p') rest pos
  = option_map
      (fun '(b, i) =>
         mkMatch (pos + b) (pos + b + List.length o + i + List.length c)
           (K (pos + b + List.length o) i))
      (tag_span greedy o c rest).
Proof.
  revert pos; induction rest as [|a rest IH]; intros pos.
  - unfold tag_span. simpl. destruct (startswith o []) eqn:E; simpl; [|reflexivity].
    rewrite Hp'. destruct (locate greedy c (skipn (List.length o) [])); simpl;
      [|reflexivity].
    repeat f_equal; lia.
  - unfold tag_span. cbn [search_from match_at].
    destruct (startswith o (a :: rest)) eqn:E.
    + rewrite (find_from_here _ _ _ E). cbn [Nat.add].
      rewrite Hp'.
      destruct (locate greedy c (skipn (List.length o) (a :: rest))) as [i|] eqn:L;
        cbn [option_map].
      * repeat f_equal; lia.
      * rewrite IH. unfold tag_span.
        destruct (find_from o rest 0) as [b'|]; [|reflexivity].
        assert (L' : locate greedy c (skipn (b' + List.length o) rest) = None).
        { apply locate_None. apply locate_None in L.
          destruct (contains c (skipn (b' + List.length o) rest)) eqn:C;
            [|reflexivity].
          rewrite <- L. symmetry.
          apply (contains_skipn c (skipn (List.length o) (a :: rest)) (S b')).
          rewrite skipn_skipn. exact C. }
        rewrite L'. reflexivity.
    + rewrite IH. unfold tag_span. simpl find_from. rewrite E.
      rewrite (find_from_shift o rest 1).
      destruct (find_from o rest 0) as [b'|]; [|reflexivity].
      cbn [option_map Nat.add skipn].
      destruct (locate greedy c (skipn (b' + List.length o) rest)); [|reflexivity].
      cbn [option_map]. repeat f_equal; lia.
Qed.

End SearchLit.

Lemma search_tagged (o c : str) (greedy : bool) (s : str) :
  search (tagged o greedy c) s
  = option_map
      (fun '(b, i) =>
         mkMatch b (b + List.length o + i + List.length c)
           (Some (b + List.length o, b + List.length o + i)))
      (tag_span greedy o c s).
Proof.
  unfold search, tagged.
  rewrite (@search_from_lit o c greedy _ (fun pos i => Some (pos, pos + i))).
  - destruct (tag_span greedy o c s) as [[b i]|]; reflexivity.
  - intros rest pos.
    exact (star_group greedy c rest pos pos None).
Qed.

Lemma search_bare (o c s : str) :
  search (bare o c) s
  = option_map
      (fun '(b, i) => mkMatch b (b + List.length o + i + List.length c) None)
      (tag_span true o c s).
Proof.
  unfold search, bare.
  rewrite (@search_from_lit o c true _ (fun _ _ => None)).
  - destruct (tag_span true o c s) as [[b i]|]; reflexivity.
  - intros rest pos. apply star_bare.
Qed.

End ReFacts.
Import ReFacts.

(** * Tag pairs and matched spans *)

Module Spans.

Lemma skipn_exact (A : Type) (a b : list A) : skipn (List.length a) (a ++ b) = b.
Proof. induction a; simpl; auto. Qed.

Lemma firstn_exact (A : Type) (a b : list A) : firstn (List.length a) (a ++ b) = a.
Proof. induction a; simpl; f_equal; auto. Qed.

Lemma skipn_plus (A : Type) (a b : nat) (l : list A) :
  skipn (a + b) l = skipn b (skipn a l).
Proof. rewrite skipn_skipn. f_equal. lia. Qed.

Lemma occurs_at_skipn_inv (t s : str) (k j : nat) :
  occurs_at t s j -> k <= j -> occurs_at t (skipn k s) (j - k).
Proof.
  revert s j; induction k as [|k IH]; intros s j H Hk; simpl.
  - rewrite Nat.sub_0_r. exact H.
  - destruct j as [|j]; [lia|]. destruct s as [|a s].
    + apply occurs_at_le in H. simpl in H. lia.
    + apply occurs_at_S in H. simpl. apply IH; [exact H | lia].
Qed.

Lemma locate_Some_occurs (greedy : bool) (c rest : str) (i : nat) :
  locate greedy c rest = Some i -> occurs_at c rest i.
Proof.
  destruct greedy; simpl; intros H;
    [apply rfind_from_Some in H | apply find_from_Some in H]; apply H.
Qed.

Lemma tag_span_iff (greedy : bool) (o c s : str) (b i : nat) :
  tag_span greedy o c s = Some (b, i) <->
  exists pre body post,
    matched_span greedy o c s pre body post
    /\ List.length pre = b /\ List.length body = i.
Proof.
  unfold tag_span, matched_span. split.
  - destruct (find_from o s 0) as [b'|] eqn:F; [|discriminate].
    destruct (locate greedy c (skipn (b' + List.length o) s)) as [i'|] eqn:L;
      [|discriminate].
    intros [= -> ->].
    pose proof (proj1 (find_from_Some o s b) F) as [(pre & rest & Hs & Hb) _].
    assert (Hr : skipn (b + List.length o) s = rest).
    { rewrite Hs, <- Hb, skipn_plus, skipn_exact, skipn_exact. reflexivity. }
    rewrite Hr in L.
    destruct (locate_Some_occurs _ _ _ L) as (body & post & Hrest & Hi).
    exists pre, body, post. rewrite Hrest in Hs, L. rewrite Hb, Hi.
    repeat split; auto.
  - intros (pre & body & post & (Hs & F & L) & <- & <-).
    rewrite F.
    assert (Hr : skipn (List.length pre + List.length o) s = body ++ c ++ post).
    { rewrite Hs, skipn_plus, skipn_exact, skipn_exact. reflexivity. }
    rewrite Hr, L. reflexivity.
Qed.

Lemma tag_span_None (greedy : bool) (o c s : str) :
  tag_span greedy o c s = None <-> ~ has_pair o c s.
Proof.
  split.
  - intros T (pre & body & post & Hs). unfold tag_span in T.
    assert (Ho : occurs_at o s (List.length pre)) by (exists pre, (body ++ c ++ post); auto).
    destruct (find_from o s 0) as [b|] eqn:F.
    + apply find_from_Some in F as [_ Hmin]. apply Hmin in Ho.
      destruct (locate greedy c (skipn (b + List.length o) s)) eqn:L;
        [discriminate|].
      apply locate_None in L.
      apply (proj1 (contains_false _ _) L (List.length pre + List.length o + List.length body
                - (b + List.length o))).
      apply occurs_at_skipn_inv; [|lia].
      exists (pre ++ o ++ body), post. rewrite !length_app, <- !app_assoc.
      split; [exact Hs | lia].
    + apply find_from_None in F.
      destruct (proj1 (contains_false _ _) F _ Ho).
  - intros H. destruct (tag_span greedy o c s) as [[b i]|] eqn:T; [|reflexivity].
    apply tag_span_iff in T as (pre & body & post & (Hs & _) & _).
    destruct H. exists pre, body, post. exact Hs.
Qed.

Lemma search_tagged_Some (o c : str) (greedy : bool) (s : str) (m : Match) :
  search (tagged o greedy c) s = Some m <->
  exists pre body post,
    matched_span greedy o c s pre body post /\ m = span_match o c pre body true.
Proof.
  rewrite search_tagged. split.
  - destruct (tag_span greedy o c s) as [[b i]|] eqn:T; [|discriminate].
    apply tag_span_iff in T as (pre & body & post & H & <- & <-).
    intros [= <-]. exists pre, body, post. split; [exact H | reflexivity].
  - intros (pre & body & post & H & ->).
    assert (T : tag_span greedy o c s = Some (List.length pre, List.length body))
      by (apply tag_span_iff; exists pre, body, post; auto).
    rewrite T. reflexivity.
Qed.

Lemma search_bare_Some (o c s : str) (m : Match) :
  search (bare o c) s = Some m <->
  exists pre body post,
    matched_span true o c s pre body post /\ m = span_match o c pre body false.
Proof.
  rewrite search_bare. split.
  - destruct (tag_span true o c s) as [[b i]|] eqn:T; [|discriminate].
    apply tag_span_iff in T as (pre & body & post & H & <- & <-).
    intros [= <-]. exists pre, body, post. split; [exact H | reflexivity].
  - intros (pre & body & post & H & ->).
    assert (T : tag_span true o c s = Some (List.length pre, List.length body))
      by (apply tag_span_iff; exists pre, body, post; auto).
    rewrite T. reflexivity.
Qed.

Lemma search_tagged_None (o c : str) (greedy : bool) (s : str) :
  search (tagged o greedy c) s = None <-> ~ has_pair o c s.
Proof.
  rewrite search_tagged, <- (tag_span_None greedy).
  destruct (tag_span greedy o c s) as [[b i]|]; simpl; split; intros H;
    first [discriminate H | reflexivity].
Qed.

Lemma search_bare_None (o c s : str) :
  search (bare o c) s = None <-> ~ has_pair o c s.
Proof.
  rewrite search_bare, <- (tag_span_None true).
  destruct (tag_span true o c s) as [[b i]|]; simpl; split; intros H;
    first [discriminate H | reflexivity].
Qed.

(** The groups of a matched span. *)
Lemma group0_span (o c pre body post : str) (g : bool) :
  group0 (span_match o c pre body g) (pre ++ o ++ body ++ c ++ post)
  = o ++ body ++ c.
Proof.
  unfold group0, slice, span_match. cbn [m_start m_end].
  rewrite skipn_exact.
  replace (List.length pre + List.length o + List.length body + List.length c
           - List.length pre) with (List.length (o ++ body ++ c))
    by (rewrite !length_app; lia).
  rewrite <- (firstn_exact (o ++ body ++ c) post) at 2.
  rewrite <- !app_assoc. reflexivity.
Qed.

Lemma group1_span (o c pre body post : str) :
  group1 (span_match o c pre body true) (pre ++ o ++ body ++ c ++ post)
  = Some body.
Proof.
  unfold group1, slice, span_match. cbn [m_group1].
  replace (List.length pre + List.length o) with (List.length (pre ++ o))
    by (rewrite length_app; lia).
  replace (List.length (pre ++ o) + List.length body - List.length (pre ++ o))
    with (List.length body) by lia.
  rewrite (app_assoc pre o), skipn_exact, firstn_exact. reflexivity.
Qed.

End Spans.
Import Spans.

(** * Removing a matched span *)

Module Removal.

Lemma replace_go_skip (old new a s : str) :
  replace_go old new (a ++ s) (List.length a) = replace_go old new s 0.
Proof.
  induction a as [|x a IH]; simpl; [|exact IH].
  destruct s; reflexivity.
Qed.

Lemma replace_go_clean (old new s : str) :
  contains old s = false -> replace_go old new s 0 = s.
Proof.
  induction s as [|x s IH]; simpl; [reflexivity|].
  intros H. apply orb_false_iff in H as [-> H]. rewrite (IH H). reflexivity.
Qed.

Lemma replace_go_prefix (old new pre rest : str) :
  (forall j, occurs_at old (pre ++ rest) j -> List.length pre <= j) ->
  replace_go old new (pre ++ rest) 0 = pre ++ replace_go old new rest 0.
Proof.
  induction pre as [|x pre IH]; intros H; simpl; [reflexivity|].
  destruct (startswith old (x :: pre ++ rest)) eqn:E.
  - apply (occurs_at_0 old (x :: pre ++ rest)) in E.
    apply H in E. simpl in E. lia.
  - rewrite IH; [reflexivity|].
    intros j Hj. apply (occurs_at_S old x) in Hj. apply H in Hj. simpl in Hj. lia.
Qed.

(** When [old] occurs once in [s], [s.replace(old, '')] is [s] without it. *)
Lemma replace_once (old pre post : str) :
  old <> [] ->
  (forall j, occurs_at old (pre ++ old ++ post) j -> List.length pre <= j) ->
  contains old post = false ->
  replace old [] (pre ++ old ++ post) = pre ++ post.
Proof.
  intros Hne Hfirst Hpost. unfold replace.
  destruct old as [|x old']; [congruence|].
  rewrite replace_go_prefix by exact Hfirst. f_equal.
  change ((x :: old') ++ post) with (x :: old' ++ post).
  assert (E : startswith (x :: old') (x :: old' ++ post) = true)
    by exact (startswith_app (x :: old') post).
  cbn [replace_go]. rewrite E.
  replace (List.length (x :: old') - 1) with (List.length old')
    by (simpl; lia).
  cbn [app]. rewrite replace_go_skip. apply replace_go_clean, Hpost.
Qed.

(** A greedy match is the only occurrence of its text: the opening text
    occurs nowhere before it and the closing text nowhere after it. *)
Lemma replace_greedy_span (o c s pre body post : str) :
  o <> [] ->
  matched_span true o c s pre body post ->
  replace (o ++ body ++ c) [] s = pre ++ post.
Proof.
  intros Ho (Hs & F & L). subst s.
  apply find_from_Some in F as [_ Hmin].
  apply rfind_from_Some in L as [_ Hmax].
  replace (pre ++ o ++ body ++ c ++ post) with (pre ++ (o ++ body ++ c) ++ post)
    in * by (rewrite <- !app_assoc; reflexivity).
  apply replace_once.
  - destruct o; [congruence | discriminate].
  - intros j (p & q & Hj & <-). apply Hmin.
    exists p, (body ++ c ++ q). rewrite Hj, <- !app_assoc. auto.
  - destruct (contains (o ++ body ++ c) post) eqn:C; [|reflexivity].
    apply contains_iff in C as (j & p & q & -> & <-).
    assert (H : occurs_at c (body ++ c ++ p ++ (o ++ body ++ c) ++ q)
                  (List.length (body ++ c ++ p ++ o ++ body))).
    { exists (body ++ c ++ p ++ o ++ body), q. rewrite <- !app_assoc. auto. }
    apply Hmax in H. rewrite !length_app in H.
    destruct o; [congruence | simpl in H; lia].
Qed.

End Removal.
Import Removal.

(** * Facts about [strip] *)

Module StripFacts.

Lemma lstrip_idem (s : str) : lstrip (lstrip s) = lstrip s.
Proof.
  induction s as [|x s IH]; simpl; [reflexivity|].
  destruct (isspace x) eqn:E; [exact IH|]. simpl. rewrite E. reflexivity.
Qed.

Lemma lstrip_snoc (s : str) (x : char) :
  isspace x = false -> lstrip (s ++ [x]) = lstrip s ++ [x].
Proof.
  intros E. induction s as [|y s IH]; simpl; [rewrite E; reflexivity|].
  destruct (isspace y); [exact IH | reflexivity].
Qed.

Lemma rstrip_cons (x : char) (s : str) :
  isspace x = false -> rstrip (x :: s) = x :: rstrip s.
Proof.
  intros E. unfold rstrip. simpl. rewrite lstrip_snoc by exact E.
  rewrite rev_app_distr. reflexivity.
Qed.

Lemma lstrip_head (s : str) :
  lstrip s = [] \/ exists x t, lstrip s = x :: t /\ isspace x = false.
Proof.
  induction s as [|y s IH]; simpl; [auto|].
  destruct (isspace y) eqn:E; [exact IH | right; eauto].
Qed.

Lemma rstrip_idem (s : str) : rstrip (rstrip s) = rstrip s.
Proof. unfold rstrip. rewrite rev_involutive, lstrip_idem. reflexivity. Qed.

Lemma lstrip_strip (s : str) : lstrip (strip s) = strip s.
Proof.
  unfold strip. destruct (lstrip_head s) as [-> | (x & t & -> & E)];
    [reflexivity|].
  rewrite rstrip_cons by exact E. simpl. rewrite E. reflexivity.
Qed.

(** Stripping twice is stripping once: [step] strips the command group
    again before it compares it with ['exit']. *)
Lemma strip_idem (s : str) : strip (strip s) = strip s.
Proof.
  unfold strip at 1. rewrite lstrip_strip. unfold strip. apply rstrip_idem.
Qed.

End StripFacts.
Import StripFacts.

(** * The cascade of [step], branch by branch *)

Module Cascade.

Lemma open_tag_nonempty (k : kind) : open_tag k <> [].
Proof. destruct k; discriminate. Qed.

Lemma search_kind_Some (k : kind) (s : str) (m : Match) :
  search (regex_of k) s = Some m <->
  exists pre body post,
    matched_span (greedy k) (open_tag k) (close_tag k) s pre body post
    /\ m = span_match (open_tag k) (close_tag k) pre body (has_group k).
Proof.
  destruct k;
    [ apply (search_bare_Some finish_open finish_close)
    | apply (search_tagged_Some bash_open bash_close false)
    | apply (search_tagged_Some ipython_open ipython_close false)
    | apply (search_tagged_Some browse_open browse_close true) ].
Qed.

Lemma search_kind_None (k : kind) (s : str) :
  search (regex_of k) s = None <-> ~ pair_in k s.
Proof.
  destruct k;
    [ apply (search_bare_None finish_open finish_close)
    | apply (search_tagged_None bash_open bash_close false)
    | apply (search_tagged_None ipython_open ipython_close false)
    | apply (search_tagged_None browse_open browse_close true) ].
Qed.

Lemma pair_matched (k : kind) (s : str) :
  pair_in k s ->
  exists pre body post,
    matched_span (greedy k) (open_tag k) (close_tag k) s pre body post.
Proof.
  intros H. destruct (search (regex_of k) s) as [m|] eqn:E.
  - apply search_kind_Some in E as (pre & body & post & Hm & _). eauto.
  - apply search_kind_None in E. contradiction.
Qed.

Lemma search_span (k : kind) (s pre body post : str) :
  matched_span (greedy k) (open_tag k) (close_tag k) s pre body post ->
  search (regex_of k) s
  = Some (span_match (open_tag k) (close_tag k) pre body (has_group k)).
Proof. intros H. apply search_kind_Some. eauto. Qed.

Lemma group0_matched (g gf : bool) (o c s pre body post : str) :
  matched_span g o c s pre body post ->
  group0 (span_match o c pre body gf) s = o ++ body ++ c.
Proof. intros (-> & _). apply group0_span. Qed.

Lemma group1_matched (g : bool) (o c s pre body post : str) :
  matched_span g o c s pre body post ->
  group1 (span_match o c pre body true) s = Some body.
Proof. intros (-> & _). apply group1_span. Qed.

Lemma group1_kind (k : kind) (s pre body post : str) :
  matched_span (greedy k) (open_tag k) (close_tag k) s pre body post ->
  group1 (span_match (open_tag k) (close_tag k) pre body (has_group k)) s
  = if has_group k then Some body else None.
Proof.
  intros H. destruct k; cbn [has_group]; try exact (group1_matched H).
  reflexivity.
Qed.

Ltac unfold_classify :=
  unfold classify;
  change finish_re with (regex_of Finish);
  change bash_re with (regex_of Command);
  change ipython_re with (regex_of Code);
  change browse_re with (regex_of Browse).

(** The finish branch. *)
Lemma classify_finish (s pre body post : str) :
  matched_span true finish_open finish_close s pre body post ->
  classify s = inr (AgentFinishAction (Some (strip (pre ++ post)))).
Proof.
  intros H. unfold_classify. rewrite (search_span Finish H).
  cbn [open_tag close_tag has_group].
  rewrite (group0_matched _ H).
  rewrite (@replace_greedy_span finish_open finish_close s pre body post);
    [reflexivity | discriminate | exact H].
Qed.

(** The command branch. *)
Lemma classify_command (s pre body post : str) :
  ~ pair_in Finish s ->
  matched_span false bash_open bash_close s pre body post ->
  classify s =
    if str_eqb (strip body) (lit "exit")
    then inr (AgentFinishAction None)
    else inr (CmdRunAction (strip body)
                (strip (replace (bash_open ++ body ++ bash_close) [] s))).
Proof.
  intros NF H. unfold_classify.
  rewrite (proj2 (search_kind_None Finish s) NF).
  rewrite (search_span Command H). cbn [open_tag close_tag has_group].
  unfold group1_strip.
  rewrite (group0_matched _ H), (group1_matched H), strip_idem. reflexivity.
Qed.

(** The code branch. *)
Lemma classify_code (s pre body post : str) :
  ~ pair_in Finish s -> ~ pair_in Command s ->
  matched_span false ipython_open ipython_close s pre body post ->
  classify s =
    inr (IPythonRunCellAction (strip body)
           (strip (replace (ipython_open ++ body ++ ipython_close) [] s))
           jupyter_kernel_init_code).
Proof.
  intros NF NC H. unfold_classify.
  rewrite (proj2 (search_kind_None Finish s) NF).
  rewrite (proj2 (search_kind_None Command s) NC).
  rewrite (search_span Code H). cbn [open_tag close_tag has_group].
  unfold group1_strip.
  rewrite (group0_matched _ H), (group1_matched H). reflexivity.
Qed.

(** The browse branch. *)
Lemma classify_browse (s pre body post : str) :
  ~ pair_in Finish s -> ~ pair_in Command s -> ~ pair_in Code s ->
  matched_span true browse_open browse_close s pre body post ->
  classify s =
    inr (BrowseInteractiveAction (strip body) (strip (pre ++ post))).
Proof.
  intros NF NC NI H. unfold_classify.
  rewrite (proj2 (search_kind_None Finish s) NF).
  rewrite (proj2 (search_kind_None Command s) NC).
  rewrite (proj2 (search_kind_None Code s) NI).
  rewrite (search_span Browse H). cbn [open_tag close_tag has_group].
  unfold group1_strip.
  rewrite (group0_matched _ H), (group1_matched H).
  rewrite (@replace_greedy_span browse_open browse_close s pre body post);
    [reflexivity | discriminate | exact H].
Qed.

(** The fallback. *)
Lemma classify_message (s : str) :
  ~ pair_in Finish s -> ~ pair_in Command s -> ~ pair_in Code s ->
  ~ pair_in Browse s ->
  classify s = inr (MessageAction s true).
Proof.
  intros NF NC NI NB. unfold_classify.
  rewrite (proj2 (search_kind_None Finish s) NF).
  rewrite (proj2 (search_kind_None Command s) NC).
  rewrite (proj2 (search_kind_None Code s) NI).
  rewrite (proj2 (search_kind_None Browse s) NB). reflexivity.
Qed.

(** Whether a text holds a pair is decided by the search. *)
Lemma pair_in_dec (k : kind) (s : str) : pair_in k s \/ ~ pair_in k s.
Proof.
  destruct (search (regex_of k) s) as [m|] eqn:E.
  - left. apply search_kind_Some in E as (pre & body & post & (Hs & _) & _).
    exists pre, body, post. exact Hs.
  - right. apply search_kind_None, E.
Qed.

(** No branch raises: every text yields an action. *)
Lemma classify_total (s : str) : exists a, classify s = inr a.
Proof.
  destruct (pair_in_dec Finish s) as [PF|NF].
  { destruct (pair_matched PF) as (pre & body & post & H).
    rewrite (classify_finish H). eauto. }
  destruct (pair_in_dec Command s) as [PC|NC].
  { destruct (pair_matched PC) as (pre & body & post & H).
    rewrite (classify_command NF H).
    destruct (str_eqb (strip body) (lit "exit")); eauto. }
  destruct (pair_in_dec Code s) as [PI|NI].
  { destruct (pair_matched PI) as (pre & body & post & H).
    rewrite (classify_code NF NC H). eauto. }
  destruct (pair_in_dec Browse s) as [PB|NB].
  { destruct (pair_matched PB) as (pre & body & post & H).
    rewrite (classify_browse NF NC NI H). eauto. }
  rewrite (classify_message NF NC NI NB). eauto.
Qed.

(** The four branches on small texts. *)
Example browse_body_is_greedy :
  classify (lit "t <execute_browse>a</execute_browse>b</execute_browse> u")
  = inr (BrowseInteractiveAction (lit "a</execute_browse>b") (lit "t  u")).
Proof. vm_compute. reflexivity. Qed.

Example code_body_is_lazy :
  classify (lit "t <execute_ipython>a</execute_ipython>b</execute_ipython> u")
  = inr (IPythonRunCellAction (lit "a") (lit "t b</execute_ipython> u")
           jupyter_kernel_init_code).
Proof. vm_compute. reflexivity. Qed.

Example command_thought :
  classify (lit "List it. <execute_bash> ls -la </execute_bash>")
  = inr (CmdRunAction (lit "ls -la") (lit "List it.")).
Proof. vm_compute. reflexivity. Qed.

Example closing_before_opening :
  classify (lit "</execute_bash> then <execute_bash>")
  = inr (MessageAction (lit "</execute_bash> then <execute_bash>") true).
Proof. vm_compute. reflexivity. Qed.

End Cascade.
Import Cascade.

(** * Properties of the response classifier, the truncator and the step *)

Lemma last_in_text (o c pre body post : str) :
  rfind_from c (body ++ c ++ post) 0 = Some (List.length body) ->
  last_occurrence c (pre ++ o ++ body ++ c ++ post)
    (List.length (pre ++ o ++ body)).
Proof.
  intros L. apply rfind_from_Some in L as [_ Hmax]. split.
  - exists (pre ++ o ++ body), post. rewrite <- !app_assoc. auto.
  - intros j Hj. rewrite !length_app.
    destruct (Nat.le_gt_cases (List.length pre + List.length o) j) as [Hle|]; [|lia].
    pose proof (@occurs_at_skipn_inv _ _ _ _ Hj Hle) as Hr.
    rewrite skipn_plus, skipn_exact, skipn_exact in Hr.
    apply Hmax in Hr. lia.
Qed.

Lemma lazy_span (k : kind) (s : str) (m : Match) :
  greedy k = false -> search (regex_of k) s = Some m -> shortest_span k s m.
Proof.
  intros G E. apply search_kind_Some in E as (pre & body & post & H & ->).
  exists pre, body, post. rewrite (group0_matched _ H), (group1_kind k H).
  destruct H as (Hs & F & L). rewrite G in L.
  repeat split; auto; try (apply find_from_Some; assumption).
Qed.

Lemma greedy_span (k : kind) (s : str) (m : Match) :
  greedy k = true -> search (regex_of k) s = Some m -> longest_span k s m.
Proof.
  intros G E. apply search_kind_Some in E as (pre & body & post & H & ->).
  exists pre, body, post. rewrite (group0_matched _ H), (group1_kind k H).
  destruct H as (Hs & F & L). rewrite G in L.
  repeat split; auto; try (apply find_from_Some; assumption);
    rewrite Hs; apply last_in_text; exact L.
Qed.

(** C1 (as the code has it): the command and code patterns match the
    shortest span, from the first opening tag to the first closing tag
    after it; the browse pattern and also the finish pattern are greedy,
    their match runs to the last closing tag of the text.  So in a text
    with two finish tag pairs the matched finish span starts no later than
    the first pair and covers the second pair too. *)
Theorem C1_lazy_command_code_greedy_finish_browse (s : str) :
  (forall m, search bash_re s = Some m -> shortest_span Command s m)
  /\ (forall m, search ipython_re s = Some m -> shortest_span Code s m)
  /\ (forall m, search browse_re s = Some m -> longest_span Browse s m)
  /\ (forall m, search finish_re s = Some m -> longest_span Finish s m)
  /\ (forall p a q b r,
        s = p ++ finish_open ++ a ++ finish_close ++ q
              ++ finish_open ++ b ++ finish_close ++ r ->
        exists m, search finish_re s = Some m
          /\ longest_span Finish s m
          /\ m_start m <= List.length p
          /\ List.length (p ++ finish_open ++ a ++ finish_close ++ q
                            ++ finish_open ++ b ++ finish_close) <= m_end m).
Proof.
  split; [intros m; apply (@lazy_span Command); reflexivity|].
  split; [intros m; apply (@lazy_span Code); reflexivity|].
  split; [intros m; apply (@greedy_span Browse); reflexivity|].
  split; [intros m; apply (@greedy_span Finish); reflexivity|].
  intros p a q b r Hs.
  assert (P : pair_in Finish s).
  { exists p, a, (q ++ finish_open ++ b ++ finish_close ++ r). exact Hs. }
  destruct (pair_matched P) as (pre & body & post & H).
  exists (span_match finish_open finish_close pre body false).
  pose proof (search_span Finish H) as E. split; [exact E|].
  split; [apply (@greedy_span Finish); [reflexivity | exact E]|].
  destruct H as (Hs' & F & L). cbn [m_start m_end span_match].
  cbn [open_tag close_tag greedy] in Hs', F, L |- *.
  apply find_from_Some in F as [_ Hmin].
  pose proof (@last_in_text finish_open finish_close pre body post L)
    as [_ Hmax].
  rewrite <- Hs' in Hmax. split.
  - apply Hmin. exists p, (a ++ finish_close ++ q ++ finish_open ++ b
                             ++ finish_close ++ r). auto.
  - assert (O : occurs_at finish_close s
                  (List.length (p ++ finish_open ++ a ++ finish_close ++ q
                                  ++ finish_open ++ b))).
    { exists (p ++ finish_open ++ a ++ finish_close ++ q ++ finish_open ++ b), r.
      rewrite <- !app_assoc. auto. }
    apply Hmax in O. rewrite !length_app in *. lia.
Qed.

(** C1, witness: the text of two finish pairs below. *)
Lemma C1_witness :
  exists m,
    search finish_re (lit "<finish>a</finish>b<finish>c</finish>") = Some m
    /\ longest_span Finish (lit "<finish>a</finish>b<finish>c</finish>") m
    /\ m_start m <= 0 /\ 37 <= m_end m.
Proof.
  exact (proj2 (proj2 (proj2 (proj2
           (C1_lazy_command_code_greedy_finish_browse
              (lit "<finish>a</finish>b<finish>c</finish>")))))
           [] (lit "a") (lit "b") (lit "c") [] eq_refl).
Defined.

(** C1, counterexample to the claim that the finish span is the first,
    shortest pair: here the match is the whole text, not
    [<finish>a</finish>], and nothing is left of the text as a thought. *)
Lemma C1_counterexample :
  exists m,
    search finish_re (lit "<finish>a</finish>b<finish>c</finish>") = Some m
    /\ group0 m (lit "<finish>a</finish>b<finish>c</finish>")
       = lit "<finish>a</finish>b<finish>c</finish>"
    /\ group0 m (lit "<finish>a</finish>b<finish>c</finish>")
       <> lit "<finish>a</finish>"
    /\ classify (lit "<finish>a</finish>b<finish>c</finish>")
       = inr (AgentFinishAction (Some [])).
Proof.
  eexists. split; [vm_compute; reflexivity|].
  split; [vm_compute; reflexivity|].
  split; [vm_compute; discriminate | vm_compute; reflexivity].
Qed.

(** ** Truncator *)

Lemma len_app (a b : str) : len (a ++ b) = (len a + len b)%Z.
Proof. unfold len. rewrite length_app. lia. Qed.

(** C2 (as the code has it): [truncate_observation] is the identity on a
    text of at most [max_chars] characters.  On a longer text, for
    [max_chars] of at least 2, the result is the first [max_chars // 2]
    characters, the marker, and the last [max_chars // 2] characters; its
    length is [2 * (max_chars // 2) + len(marker)], which is
    [max_chars + len(marker)] when [max_chars] is even. *)
Theorem C2_truncate_observation (text : str) (max_chars : Z) :
  ((len text <= max_chars)%Z -> truncate_observation text max_chars = text)
  /\ ((max_chars < len text)%Z -> (2 <= max_chars)%Z ->
      let half := Z.to_nat (max_chars / 2) in
      truncate_observation text max_chars
        = firstn half text ++ truncation_marker
            ++ skipn (List.length text - half) text
      /\ List.length (firstn half text) = half
      /\ List.length (skipn (List.length text - half) text) = half
      /\ len (truncate_observation text max_chars)
         = (2 * (max_chars / 2) + len truncation_marker)%Z
      /\ (Z.even max_chars = true ->
          len (truncate_observation text max_chars)
          = (max_chars + len truncation_marker)%Z)).
Proof.
  split.
  - intros H. unfold truncate_observation.
    apply Z.leb_le in H. rewrite H. reflexivity.
  - intros Hlong Hmax half.
    assert (Hhalf : (1 <= max_chars / 2 <= max_chars)%Z).
    { split; [apply Z.div_le_lower_bound; lia|].
      apply Z.div_le_upper_bound; lia. }
    assert (Hn : half <= List.length text) by (unfold half, len in *; lia).
    assert (E : truncate_observation text max_chars
                = firstn half text ++ truncation_marker
                    ++ skipn (List.length text - half) text).
    { unfold truncate_observation.
      destruct (Z.leb_spec (len text) max_chars) as [|_]; [lia|].
      unfold slice_to, slice_from.
      destruct (Z.ltb_spec (max_chars / 2) 0) as [|_]; [lia|].
      destruct (Z.ltb_spec (- (max_chars / 2)) 0) as [_|]; [|lia].
      replace (Z.to_nat (len text + - (max_chars / 2)))
        with (List.length text - half) by (unfold half, len; lia).
      reflexivity. }
    assert (L1 : List.length (firstn half text) = half)
      by (rewrite length_firstn; lia).
    assert (L2 : List.length (skipn (List.length text - half) text) = half)
      by (rewrite length_skipn; lia).
    assert (L : len (truncate_observation text max_chars)
                = (2 * (max_chars / 2) + len truncation_marker)%Z).
    { rewrite E, !len_app. unfold len at 1 3. rewrite L1, L2.
      unfold half. lia. }
    repeat split; auto.
    intros Hev. rewrite L. apply Zeven_bool_iff in Hev.
    rewrite (Zeven_div2 _ Hev) at 2. rewrite Z.div2_div. lia.
Qed.

(** C2, witness: eight characters cut down to four. *)
Lemma C2_witness :
  (4 < len (lit "abcdefgh"))%Z /\ (2 <= 4)%Z
  /\ truncate_observation (lit "abcdefgh") 4
     = lit "ab" ++ truncation_marker ++ lit "gh"
  /\ len (truncate_observation (lit "abcdefgh") 4)
     = (4 + len truncation_marker)%Z.
Proof.
  split; [reflexivity|]. split; [lia|].
  pose (H := proj2 (C2_truncate_observation (lit "abcdefgh") 4)
               eq_refl ltac:(lia)).
  split; [exact (proj1 H)|].
  exact (proj2 (proj2 (proj2 (proj2 H))) eq_refl).
Defined.

(** C2, counterexample to the length [max_chars + len(marker)]: with
    [max_chars = 3] one character is kept on each side. *)
Lemma C2_counterexample :
  (3 < len (lit "abcd"))%Z
  /\ truncate_observation (lit "abcd") 3
     = lit "a" ++ truncation_marker ++ lit "d"
  /\ len (truncate_observation (lit "abcd") 3)
     <> (3 + len truncation_marker)%Z.
Proof.
  split; [reflexivity|]. split; [reflexivity|]. vm_compute. discriminate.
Qed.

(** ** Tag repair *)

Module Repair.

Lemma repair_tag_eq (s lang : str) :
  repair_tag s lang = s ++ closing_if_unterminated lang s.
Proof.
  unfold repair_tag, closing_if_unterminated.
  destruct (contains (exec_open lang) s && negb (contains (exec_close lang) s));
    [reflexivity | symmetry; apply app_nil_r].
Qed.

Lemma startswith_mono (t u x : str) :
  startswith t u = true -> startswith t (u ++ x) = true.
Proof.
  intros H. apply startswith_iff in H as [post ->].
  rewrite <- app_assoc. apply startswith_app.
Qed.

(** A text without [<] cannot run over the start of an appended tag. *)
Lemma startswith_before_lt (t u x : str) :
  existsb (N.eqb 60) t = false ->
  startswith t (u ++ 60%N :: x) = true -> startswith t u = true.
Proof.
  revert u; induction t as [|b t IH]; intros u Hb H; [reflexivity|].
  simpl in Hb. apply orb_false_iff in Hb as [Hb Ht].
  destruct u as [|a u]; simpl in *.
  - apply andb_true_iff in H as [H _]. apply N.eqb_eq in H. subst b.
    discriminate.
  - apply andb_true_iff in H as [-> H]. simpl. exact (IH u Ht H).
Qed.

(** Appending a closing tag neither creates nor destroys an occurrence of
    another tag. *)
Lemma contains_app_tag (T X s : str) :
  hd_error T = Some 60%N -> hd_error X = Some 60%N ->
  existsb (N.eqb 60) (tl T) = false ->
  contains T X = false ->
  contains T (s ++ X) = contains T s.
Proof.
  destruct T as [|t0 t']; [discriminate|]. destruct X as [|x0 x']; [discriminate|].
  simpl hd_error. simpl tl. intros [= ->] [= ->] Hlt HX.
  induction s as [|a s IH].
  - simpl app. rewrite HX. reflexivity.
  - change (contains (60%N :: t') ((a :: s) ++ 60%N :: x'))
      with (N.eqb 60 a && startswith t' (s ++ 60%N :: x')
            || contains (60%N :: t') (s ++ 60%N :: x')).
    change (contains (60%N :: t') (a :: s))
      with (N.eqb 60 a && startswith t' s || contains (60%N :: t') s).
    f_equal; [f_equal | exact IH].
    destruct (startswith t' (s ++ 60%N :: x')) eqn:E.
    + symmetry. apply (startswith_before_lt _ _ _ Hlt E).
    + destruct (startswith t' s) eqn:E'; [|reflexivity].
      rewrite (startswith_mono _ _ (60%N :: x') E') in E. discriminate.
Qed.

(** A round of the loop for [lang'] leaves the test for [lang] as it was. *)
Lemma closing_after_repair (lang lang' s : str) :
  hd_error (exec_open lang) = Some 60%N ->
  existsb (N.eqb 60) (tl (exec_open lang)) = false ->
  existsb (N.eqb 60) (tl (exec_close lang)) = false ->
  contains (exec_open lang) (exec_close lang') = false ->
  contains (exec_close lang) (exec_close lang') = false ->
  closing_if_unterminated lang (repair_tag s lang')
  = closing_if_unterminated lang s.
Proof.
  intros H1 H2 H3 H4 H5. rewrite repair_tag_eq.
  unfold closing_if_unterminated at 2.
  destruct (contains (exec_open lang') s && negb (contains (exec_close lang') s)).
  - unfold closing_if_unterminated.
    rewrite !contains_app_tag; auto.
  - rewrite app_nil_r. reflexivity.
Qed.

Lemma repair_tags_eq (s : str) :
  repair_tags s
  = s ++ closing_if_unterminated (lit "bash") s
      ++ closing_if_unterminated (lit "ipython") s
      ++ closing_if_unterminated (lit "browse") s.
Proof.
  unfold repair_tags, langs. cbn [fold_left].
  rewrite (repair_tag_eq (repair_tag (repair_tag s (lit "bash")) (lit "ipython"))).
  rewrite (@closing_after_repair (lit "browse") (lit "ipython")) by reflexivity.
  rewrite (@closing_after_repair (lit "browse") (lit "bash")) by reflexivity.
  rewrite (repair_tag_eq (repair_tag s (lit "bash"))).
  rewrite (@closing_after_repair (lit "ipython") (lit "bash")) by reflexivity.
  rewrite repair_tag_eq, <- !app_assoc. reflexivity.
Qed.

End Repair.
Import Repair.

(** C5: tag repair appends, for each of the command, code and browse tags,
    the closing tag when the opening tag is in the text and the closing tag
    is not; so the unterminated [<execute_bash>\nls -la] is read as the
    command [ls -la]. *)
Theorem C5_tag_repair :
  (forall s,
     repair_tags s
     = s ++ (if contains bash_open s && negb (contains bash_close s)
             then bash_close else [])
         ++ (if contains ipython_open s && negb (contains ipython_close s)
             then ipython_close else [])
         ++ (if contains browse_open s && negb (contains browse_close s)
             then browse_close else []))
  /\ repair_tags (lit "<execute_bash>
ls -la") = lit "<execute_bash>
ls -la</execute_bash>"
  /\ classify (repair_tags (lit "<execute_bash>
ls -la")) = inr (CmdRunAction (lit "ls -la") []).
Proof.
  split; [exact repair_tags_eq|]. split; vm_compute; reflexivity.
Qed.

(** ** Response classifier *)

Lemma matched_lazy (o c pre body post : str) :
  first_occurrence o (pre ++ o ++ body ++ c ++ post) (List.length pre) ->
  first_occurrence c (body ++ c ++ post) (List.length body) ->
  matched_span false o c (pre ++ o ++ body ++ c ++ post) pre body post.
Proof.
  intros Ho Hc. split; [reflexivity|].
  split; apply find_from_Some; assumption.
Qed.

Lemma first_occurrence_find (t s : str) (i : nat) :
  find_from t s 0 = Some i -> first_occurrence t s i.
Proof. apply find_from_Some. Qed.

Lemma no_pair_search (k : kind) (s : str) :
  search (regex_of k) s = None -> ~ pair_in k s.
Proof. apply search_kind_None. Qed.

(** What the exit alias returns, with or without a finish pair around. *)
Lemma exit_alias (pre inner post : str) :
  first_occurrence bash_open
    (pre ++ bash_open ++ inner ++ bash_close ++ post) (List.length pre) ->
  first_occurrence bash_close (inner ++ bash_close ++ post)
    (List.length inner) ->
  strip inner = lit "exit" ->
  ~ pair_in Finish (pre ++ bash_open ++ inner ++ bash_close ++ post) ->
  classify (pre ++ bash_open ++ inner ++ bash_close ++ post)
  = inr (AgentFinishAction None).
Proof.
  intros Ho Hc He NF.
  rewrite (classify_command NF (@matched_lazy _ _ _ _ _ Ho Hc)), He.
  reflexivity.
Qed.

(** C6 (as the code has it): when the inner text of the first command tag
    pair, from the first opening tag to the first closing tag after it,
    trims to [exit], the result is a finish action, not a command; when it
    trims to anything else and no finish pair is around, the result is
    that command.  So [<execute_bash>exit</execute_bash>] gives a finish
    action. *)
Theorem C6_exit_alias :
  (forall pre inner post,
     first_occurrence bash_open
       (pre ++ bash_open ++ inner ++ bash_close ++ post) (List.length pre) ->
     first_occurrence bash_close (inner ++ bash_close ++ post)
       (List.length inner) ->
     strip inner = lit "exit" ->
     exists thought,
       classify (pre ++ bash_open ++ inner ++ bash_close ++ post)
       = inr (AgentFinishAction thought))
  /\ (forall pre inner post,
        first_occurrence bash_open
          (pre ++ bash_open ++ inner ++ bash_close ++ post) (List.length pre) ->
        first_occurrence bash_close (inner ++ bash_close ++ post)
          (List.length inner) ->
        ~ pair_in Finish (pre ++ bash_open ++ inner ++ bash_close ++ post) ->
        strip inner <> lit "exit" ->
        exists thought,
          classify (pre ++ bash_open ++ inner ++ bash_close ++ post)
          = inr (CmdRunAction (strip inner) thought))
  /\ classify (lit "<execute_bash>exit</execute_bash>")
     = inr (AgentFinishAction None).
Proof.
  split; [|split; [|vm_compute; reflexivity]].
  - intros pre inner post Ho Hc He.
    destruct (pair_in_dec Finish
                (pre ++ bash_open ++ inner ++ bash_close ++ post)) as [PF|NF].
    + destruct (pair_matched PF) as (p & b & q & H).
      rewrite (classify_finish H). eauto.
    + rewrite (@exit_alias pre inner post Ho Hc He NF). eauto.
  - intros pre inner post Ho Hc NF Hne.
    rewrite (classify_command NF (@matched_lazy _ _ _ _ _ Ho Hc)).
    destruct (str_eqb (strip inner) (lit "exit")) eqn:E; [|eauto].
    apply str_eqb_eq in E. contradiction.
Qed.

(** C6, witness: an exit command with spaces around it, after a thought. *)
Lemma C6_witness :
  exists thought,
    classify (lit "bye " ++ bash_open ++ lit " exit
" ++ bash_close ++ lit " now") = inr (AgentFinishAction thought).
Proof.
  apply (proj1 C6_exit_alias (lit "bye ") (lit " exit
") (lit " now")).
  - apply first_occurrence_find. reflexivity.
  - apply first_occurrence_find. reflexivity.
  - reflexivity.
Defined.

(** C6, counterexample to the claim for every text that holds an exit
    pair: the second pair below holds [exit], the first pair is the one
    matched, and the result is the command [ls]. *)
Lemma C6_counterexample :
  lit "<execute_bash>ls</execute_bash><execute_bash>exit</execute_bash>"
  = lit "<execute_bash>ls</execute_bash>" ++ bash_open ++ lit "exit"
      ++ bash_close ++ []
  /\ strip (lit "exit") = lit "exit"
  /\ classify
       (lit "<execute_bash>ls</execute_bash><execute_bash>exit</execute_bash>")
     = inr (CmdRunAction (lit "ls") (lit "<execute_bash>exit</execute_bash>")).
Proof. repeat split; vm_compute; reflexivity. Qed.

(** C7: the branches are tried in the order finish, command, code,
    browse, plain message, and the first that matches decides.  With a
    finish pair and a command pair in the text the result is a finish
    action; its thought is the text without the matched finish span,
    trimmed. *)
Theorem C7_priority_order (s : str) :
  (pair_in Finish s -> pair_in Command s ->
   exists m pre body post,
     search finish_re s = Some m
     /\ s = pre ++ finish_open ++ body ++ finish_close ++ post
     /\ group0 m s = finish_open ++ body ++ finish_close
     /\ classify s = inr (AgentFinishAction (Some (strip (pre ++ post)))))
  /\ (pair_in Finish s ->
      exists thought, classify s = inr (AgentFinishAction (Some thought)))
  /\ (~ pair_in Finish s -> pair_in Command s ->
      (exists command thought, classify s = inr (CmdRunAction command thought))
      \/ classify s = inr (AgentFinishAction None))
  /\ (~ pair_in Finish s -> ~ pair_in Command s -> pair_in Code s ->
      exists code thought,
        classify s
        = inr (IPythonRunCellAction code thought jupyter_kernel_init_code))
  /\ (~ pair_in Finish s -> ~ pair_in Command s -> ~ pair_in Code s ->
      pair_in Browse s ->
      exists browser_actions thought,
        classify s = inr (BrowseInteractiveAction browser_actions thought))
  /\ (~ pair_in Finish s -> ~ pair_in Command s -> ~ pair_in Code s ->
      ~ pair_in Browse s ->
      classify s = inr (MessageAction s true)).
Proof.
  split.
  { intros PF _. destruct (pair_matched PF) as (pre & body & post & H).
    exists (span_match finish_open finish_close pre body false), pre, body, post.
    split; [exact (search_span Finish H)|].
    split; [apply H|].
    split; [exact (group0_matched _ H) | exact (classify_finish H)]. }
  split.
  { intros PF. destruct (pair_matched PF) as (pre & body & post & H).
    rewrite (classify_finish H). eauto. }
  split.
  { intros NF PC. destruct (pair_matched PC) as (pre & body & post & H).
    rewrite (classify_command NF H).
    destruct (str_eqb (strip body) (lit "exit")); eauto. }
  split.
  { intros NF NC PI. destruct (pair_matched PI) as (pre & body & post & H).
    rewrite (classify_code NF NC H). eauto. }
  split.
  { intros NF NC NI PB. destruct (pair_matched PB) as (pre & body & post & H).
    rewrite (classify_browse NF NC NI H). eauto. }
  exact (@classify_message s).
Qed.

(** C7, witness: a finish pair after a command pair. *)
Lemma C7_witness :
  exists m pre body post,
    search finish_re (lit "run <execute_bash>ls</execute_bash> <finish>ok</finish> end")
    = Some m
    /\ lit "run <execute_bash>ls</execute_bash> <finish>ok</finish> end"
       = pre ++ finish_open ++ body ++ finish_close ++ post
    /\ group0 m (lit "run <execute_bash>ls</execute_bash> <finish>ok</finish> end")
       = finish_open ++ body ++ finish_close
    /\ classify (lit "run <execute_bash>ls</execute_bash> <finish>ok</finish> end")
       = inr (AgentFinishAction (Some (strip (pre ++ post)))).
Proof.
  apply (proj1 (C7_priority_order
    (lit "run <execute_bash>ls</execute_bash> <finish>ok</finish> end"))).
  - exists (lit "run <execute_bash>ls</execute_bash> "), (lit "ok"), (lit " end").
    reflexivity.
  - exists (lit "run "), (lit "ls"), (lit " <finish>ok</finish> end").
    reflexivity.
Defined.

Lemma classify_message_inv (s content : str) (w : bool) :
  classify s = inr (MessageAction content w) ->
  content = s /\ w = true /\ forall k, ~ pair_in k s.
Proof.
  intros E.
  destruct (pair_in_dec Finish s) as [PF|NF].
  { destruct (pair_matched PF) as (pre & body & post & H).
    rewrite (classify_finish H) in E. discriminate. }
  destruct (pair_in_dec Command s) as [PC|NC].
  { destruct (pair_matched PC) as (pre & body & post & H).
    rewrite (classify_command NF H) in E.
    destruct (str_eqb (strip body) (lit "exit")); discriminate. }
  destruct (pair_in_dec Code s) as [PI|NI].
  { destruct (pair_matched PI) as (pre & body & post & H).
    rewrite (classify_code NF NC H) in E. discriminate. }
  destruct (pair_in_dec Browse s) as [PB|NB].
  { destruct (pair_matched PB) as (pre & body & post & H).
    rewrite (classify_browse NF NC NI H) in E. discriminate. }
  rewrite (classify_message NF NC NI NB) in E. injection E as <- <-.
  repeat split. intros []; assumption.
Qed.

Lemma pair_has_open (o c s : str) : has_pair o c s -> contains o s = true.
Proof.
  intros (pre & body & post & ->). apply contains_iff.
  exists (List.length pre), pre, (body ++ c ++ post). auto.
Qed.

Lemma pair_after_append (o c s x y : str) :
  contains o s = true -> has_pair o c (s ++ x ++ c ++ y).
Proof.
  intros H. apply contains_iff in H as (i & p & q & -> & _).
  exists p, (q ++ x), y. rewrite <- !app_assoc. reflexivity.
Qed.

(** A repaired text without any pair is the text as the model gave it. *)
Lemma repair_without_pair (raw : str) :
  (forall k, ~ pair_in k (repair_tags raw)) -> repair_tags raw = raw.
Proof.
  intros H. rewrite repair_tags_eq in *. unfold closing_if_unterminated in *.
  change (exec_open (lit "bash")) with bash_open in *.
  change (exec_close (lit "bash")) with bash_close in *.
  change (exec_open (lit "ipython")) with ipython_open in *.
  change (exec_close (lit "ipython")) with ipython_close in *.
  change (exec_open (lit "browse")) with browse_open in *.
  change (exec_close (lit "browse")) with browse_close in *.
  destruct (contains bash_open raw) eqn:O1;
    [destruct (contains bash_close raw) eqn:C1|]; cbn [andb negb] in *.
  2: { destruct (H Command). apply (@pair_after_append _ _ _ [] _ O1). }
  all: destruct (contains ipython_open raw) eqn:O2;
    [destruct (contains ipython_close raw) eqn:C2|]; cbn [andb negb] in *.
  all: try (destruct (H Code); apply (@pair_after_append _ _ _ _ _ O2)).
  all: destruct (contains browse_open raw) eqn:O3;
    [destruct (contains browse_close raw) eqn:C3|]; cbn [andb negb] in *.
  all: try (destruct (H Browse);
            rewrite <- (app_nil_r browse_close);
            apply (@pair_after_append _ _ _ _ [] O3)).
  all: rewrite !app_nil_r; reflexivity.
Qed.

(** A text in which no opening tag lacks its closing tag is not changed
    by the repair. *)
Lemma repair_terminated (raw : str) :
  terminated Command raw = true -> terminated Code raw = true ->
  terminated Browse raw = true ->
  repair_tags raw = raw.
Proof.
  unfold terminated. cbn [open_tag close_tag]. intros T1 T2 T3.
  rewrite repair_tags_eq. unfold closing_if_unterminated.
  change (exec_open (lit "bash")) with bash_open.
  change (exec_close (lit "bash")) with bash_close.
  change (exec_open (lit "ipython")) with ipython_open.
  change (exec_close (lit "ipython")) with ipython_close.
  change (exec_open (lit "browse")) with browse_open.
  change (exec_close (lit "browse")) with browse_close.
  destruct (contains bash_open raw), (contains bash_close raw);
    try discriminate T1;
    destruct (contains ipython_open raw), (contains ipython_close raw);
    try discriminate T2;
    destruct (contains browse_open raw), (contains browse_close raw);
    try discriminate T3;
    cbn [andb negb]; rewrite !app_nil_r; reflexivity.
Qed.

(** C9 (as the code has it): the repair and the cascade after it raise on
    no text, every text yields one action.  A text with no finish pair and
    no opening command, code or browse tag, and more widely a text with no
    pair of the four kinds and no opening command, code or browse tag
    without its closing tag, yields a message whose content is that text
    and which waits for a response.  Whenever the result is a message, its
    content is the text the model gave, nothing appended.  On the text it
    is given, the cascade alone yields that message when the text holds no
    pair. *)
Theorem C9_classification_total :
  (forall s, exists! a, classify s = inr a)
  /\ (forall s,
        ~ pair_in Finish s -> ~ pair_in Command s -> ~ pair_in Code s ->
        ~ pair_in Browse s ->
        classify s = inr (MessageAction s true))
  /\ (forall raw content w,
        classify (repair_tags raw) = inr (MessageAction content w) ->
        content = raw /\ w = true)
  /\ (forall raw,
        ~ pair_in Finish raw ->
        contains bash_open raw = false ->
        contains ipython_open raw = false ->
        contains browse_open raw = false ->
        classify (repair_tags raw) = inr (MessageAction raw true))
  /\ (forall raw, exists! a, classify (repair_tags raw) = inr a)
  /\ (forall raw,
        ~ pair_in Finish raw -> ~ pair_in Command raw ->
        ~ pair_in Code raw -> ~ pair_in Browse raw ->
        terminated Command raw = true -> terminated Code raw = true ->
        terminated Browse raw = true ->
        classify (repair_tags raw) = inr (MessageAction raw true)).
Proof.
  assert (Total : forall s, exists! a, classify s = inr a).
  { intros s. destruct (classify_total s) as [a E]. exists a.
    split; [exact E | intros a' E'; congruence]. }
  split; [exact Total|].
  split; [exact classify_message|].
  split.
  { intros raw content w E.
    apply classify_message_inv in E as (-> & -> & H).
    split; [apply repair_without_pair, H | reflexivity]. }
  split.
  { intros raw NF O1 O2 O3.
    assert (NC : ~ pair_in Command raw)
      by (intros P; apply pair_has_open in P; cbn [open_tag] in P; congruence).
    assert (NI : ~ pair_in Code raw)
      by (intros P; apply pair_has_open in P; cbn [open_tag] in P; congruence).
    assert (NB : ~ pair_in Browse raw)
      by (intros P; apply pair_has_open in P; cbn [open_tag] in P; congruence).
    rewrite repair_terminated
      by (unfold terminated; cbn [open_tag]; rewrite ?O1, ?O2, ?O3; reflexivity).
    exact (classify_message NF NC NI NB). }
  split; [intros raw; apply Total|].
  intros raw NF NC NI NB T1 T2 T3.
  rewrite (repair_terminated raw T1 T2 T3).
  exact (classify_message NF NC NI NB).
Qed.

(** C9, witness: a reply in plain words, with a stray closing tag. *)
Lemma C9_witness :
  classify (repair_tags (lit "Which file do you mean? </execute_bash>"))
  = inr (MessageAction (lit "Which file do you mean? </execute_bash>") true).
Proof.
  apply (proj1 (proj2 (proj2 (proj2 C9_classification_total)))).
  - apply no_pair_search. reflexivity.
  - reflexivity.
  - reflexivity.
  - reflexivity.
Defined.

(** C9, counterexample to the claim for every text without a tag pair: the
    text below holds no pair of any kind, the repair closes its command
    tag, and the result is a command, not a message. *)
Lemma C9_counterexample :
  ~ pair_in Finish (lit "<execute_bash>
ls -la")
  /\ ~ pair_in Command (lit "<execute_bash>
ls -la")
  /\ ~ pair_in Code (lit "<execute_bash>
ls -la")
  /\ ~ pair_in Browse (lit "<execute_bash>
ls -la")
  /\ classify (repair_tags (lit "<execute_bash>
ls -la")) = inr (CmdRunAction (lit "ls -la") [])
  /\ classify (repair_tags (lit "<execute_bash>
ls -la")) <> inr (MessageAction (lit "<execute_bash>
ls -la") true).
Proof.
  split; [apply no_pair_search; reflexivity|].
  split; [apply no_pair_search; reflexivity|].
  split; [apply no_pair_search; reflexivity|].
  split; [apply no_pair_search; reflexivity|].
  split; [vm_compute; reflexivity | vm_compute; discriminate].
Qed.

(** C10: when the exit alias fires, the finish action is built without a
    thought, whatever text stands before and after the pair; the finish
    branch keeps that text, trimmed, as the thought. *)
Theorem C10_exit_alias_drops_thought :
  (forall pre inner post,
     ~ pair_in Finish (pre ++ bash_open ++ inner ++ bash_close ++ post) ->
     first_occurrence bash_open
       (pre ++ bash_open ++ inner ++ bash_close ++ post) (List.length pre) ->
     first_occurrence bash_close (inner ++ bash_close ++ post)
       (List.length inner) ->
     strip inner = lit "exit" ->
     classify (pre ++ bash_open ++ inner ++ bash_close ++ post)
     = inr (AgentFinishAction None))
  /\ (forall s,
        pair_in Finish s ->
        exists pre body post,
          s = pre ++ finish_open ++ body ++ finish_close ++ post
          /\ classify s = inr (AgentFinishAction (Some (strip (pre ++ post))))).
Proof.
  split.
  - intros pre inner post NF Ho Hc He. exact (@exit_alias pre inner post Ho Hc He NF).
  - intros s PF. destruct (pair_matched PF) as (pre & body & post & H).
    exists pre, body, post. split; [apply H | exact (classify_finish H)].
Qed.

(** C10, witness: the thought around an exit command is lost. *)
Lemma C10_witness :
  classify (lit "All tests pass, leaving. " ++ bash_open ++ lit "exit"
              ++ bash_close ++ lit " Goodbye.")
  = inr (AgentFinishAction None).
Proof.
  apply (proj1 C10_exit_alias_drops_thought
           (lit "All tests pass, leaving. ") (lit "exit") (lit " Goodbye.")).
  - apply no_pair_search. reflexivity.
  - apply first_occurrence_find. reflexivity.
  - apply first_occurrence_find. reflexivity.
  - reflexivity.
Defined.

(** ** History assembler *)

Module Latest.

Lemma find_skip (A : Type) (f : A -> bool) (l1 l2 : list A) :
  Forall (fun x => f x = false) l1 -> find f (l1 ++ l2) = find f l2.
Proof.
  induction 1 as [|x l1 Hx _ IH]; simpl; [reflexivity|].
  rewrite Hx. exact IH.
Qed.

Lemma update_first_user_skip (f : Message -> Message) (l1 l2 : list Message) :
  Forall (fun x => is_user x = false) l1 ->
  update_first_user f (l1 ++ l2) = l1 ++ update_first_user f l2.
Proof.
  induction 1 as [|x l1 Hx _ IH]; simpl; [reflexivity|].
  rewrite Hx, IH. reflexivity.
Qed.

Lemma is_user_role (m : Message) : is_user m = true <-> role m = user.
Proof. unfold is_user. destruct (role m); split; congruence. Qed.

Lemma not_user_rev (post : list Message) :
  Forall (fun x => role x <> user) post ->
  Forall (fun x => is_user x = false) (rev post).
Proof.
  intros H. apply Forall_rev. eapply Forall_impl; [|exact H].
  intros x Hx. destruct (is_user x) eqn:E; [|reflexivity].
  apply is_user_role in E. contradiction.
Qed.

(** The last entry with role [user] is the one [latest_user] finds ... *)
Lemma latest_user_split (pre post : list Message) (m : Message) :
  role m = user -> Forall (fun x => role x <> user) post ->
  latest_user (pre ++ m :: post) = Some m.
Proof.
  intros Hm Hpost. unfold latest_user.
  rewrite rev_app_distr. simpl. rewrite <- app_assoc.
  rewrite find_skip by (apply not_user_rev, Hpost).
  simpl. apply is_user_role in Hm. rewrite Hm. reflexivity.
Qed.

(** ... and the one an update through it changes. *)
Lemma update_latest_user_split (f : Message -> Message)
    (pre post : list Message) (m : Message) :
  role m = user -> Forall (fun x => role x <> user) post ->
  update_latest_user f (pre ++ m :: post) = pre ++ f m :: post.
Proof.
  intros Hm Hpost. unfold update_latest_user.
  rewrite rev_app_distr. simpl. rewrite <- app_assoc.
  rewrite update_first_user_skip by (apply not_user_rev, Hpost).
  simpl. apply is_user_role in Hm. rewrite Hm.
  rewrite rev_app_distr. simpl. rewrite !rev_involutive, <- app_assoc.
  reflexivity.
Qed.

(** A list that holds a [user] entry splits at its last one. *)
Lemma last_user_exists (ms : list Message) :
  existsb is_user ms = true ->
  exists pre m post,
    ms = pre ++ m :: post /\ role m = user
    /\ Forall (fun x => role x <> user) post.
Proof.
  induction ms as [|x ms IH]; simpl; [discriminate|].
  destruct (existsb is_user ms) eqn:E.
  - intros _. destruct (IH eq_refl) as (pre & m & post & -> & Hm & Hp).
    exists (x :: pre), m, post. auto.
  - rewrite orb_false_r. intros Hx. exists [], x, ms.
    split; [reflexivity|]. split; [apply is_user_role, Hx|].
    apply Forall_forall. intros y Hy Hr. apply is_user_role in Hr.
    assert (existsb is_user ms = true)
      by (apply existsb_exists; exists y; auto).
    congruence.
Qed.

End Latest.
Import Latest.

Section AgentFacts.

Variable prompt : Prompt.

Lemma fold_messages (events : list Event) (acc : list Message) :
  exists rest,
    fold_left
      (fun messages event =>
         match event_message event with
         | Some message => messages ++ [message]
         | None => messages
         end) events acc
    = acc ++ rest.
Proof.
  revert acc; induction events as [|e events IH]; intros acc; simpl.
  - exists []. symmetry. apply app_nil_r.
  - destruct (event_message e) as [m|].
    + destruct (IH (acc ++ [m])) as [rest ->]. exists (m :: rest).
      rewrite <- app_assoc. reflexivity.
    + apply IH.
Qed.

(** The worked example is always there: some message has role [user]. *)
Lemma history_has_user (st : State) :
  existsb is_user (history_messages prompt st) = true.
Proof.
  unfold history_messages.
  destruct (fold_messages (history st)
              [ {| role := system; content := system_message prompt |};
                {| role := user; content := in_context_example prompt |} ])
    as [rest ->].
  reflexivity.
Qed.

Lemma get_messages_split (st : State) (pre post : list Message) (m : Message) :
  history_messages prompt st = pre ++ m :: post ->
  role m = user -> Forall (fun x => role x <> user) post ->
  _get_messages prompt st
  = if is_exit m then pre ++ m :: post
    else pre ++ {| role := user; content := content m ++ reminder st |} :: post.
Proof.
  intros Hh Hm Hpost. unfold _get_messages.
  rewrite Hh, (@latest_user_split pre post m Hm Hpost).
  destruct (is_exit m); [reflexivity|].
  rewrite (@update_latest_user_split _ pre post m Hm Hpost), Hm. reflexivity.
Qed.

End AgentFacts.

Lemma is_exit_true (m : Message) :
  is_exit m = true <-> strip (content m) = lit "/exit".
Proof. apply str_eqb_eq. Qed.

(** C8: the assembled list always has a last message with role [user].
    When its trimmed content is not [/exit], its content gets the reminder
    with [max_iterations - iteration] appended and nothing else changes;
    when it is [/exit], the list is returned as built.  With iteration 2
    of 10 the reminder says 8 turns are left. *)
Theorem C8_turns_reminder (prompt : Prompt) (st : State) :
  (exists pre m post,
     history_messages prompt st = pre ++ m :: post
     /\ role m = user /\ Forall (fun x => role x <> user) post)
  /\ (forall pre m post,
        history_messages prompt st = pre ++ m :: post ->
        role m = user -> Forall (fun x => role x <> user) post ->
        (strip (content m) <> lit "/exit" ->
         _get_messages prompt st
         = pre
             ++ {| role := user;
                   content :=
                     content m
                       ++ lit "

ENVIRONMENT REMINDER: You have "
                       ++ str_of_int (max_iterations st - iteration st)
                       ++ lit " turns left to complete the task." |}
             :: post)
        /\ (strip (content m) = lit "/exit" ->
            _get_messages prompt st = history_messages prompt st))
  /\ (iteration st = 2%Z -> max_iterations st = 10%Z ->
      history st = [ActionEvent (Some USER) (MessageAction (lit "fix the bug") false)] ->
      _get_messages prompt st
      = [ {| role := system; content := system_message prompt |};
          {| role := user; content := in_context_example prompt |};
          {| role := user;
             content := lit "fix the bug

ENVIRONMENT REMINDER: You have 8 turns left to complete the task." |} ]).
Proof.
  split; [apply last_user_exists, history_has_user|].
  split.
  - intros pre m post Hh Hm Hpost.
    rewrite (@get_messages_split prompt st pre post m Hh Hm Hpost). split.
    + intros Hne. destruct (is_exit m) eqn:E; [|reflexivity].
      apply is_exit_true in E. contradiction.
    + intros He. apply is_exit_true in He. rewrite He. symmetry. exact Hh.
  - intros Hi Hmax Hh.
    unfold _get_messages, history_messages, reminder.
    rewrite Hi, Hmax, Hh. reflexivity.
Qed.

(** C8, witness: the history of one user message, at iteration 2 of 10. *)
Lemma C8_witness :
  _get_messages no_prompt
    (mkState [ActionEvent (Some USER) (MessageAction (lit "fix the bug") false)]
       2 10 0)
  = [ {| role := system; content := system_message no_prompt |};
      {| role := user; content := in_context_example no_prompt |};
      {| role := user;
         content := lit "fix the bug

ENVIRONMENT REMINDER: You have 8 turns left to complete the task." |} ].
Proof.
  apply (proj1 (proj1 (proj2 (C8_turns_reminder no_prompt
           (mkState [ActionEvent (Some USER)
                       (MessageAction (lit "fix the bug") false)] 2 10 0)))
           [ {| role := system; content := system_message no_prompt |};
             {| role := user; content := in_context_example no_prompt |} ]
           {| role := user; content := lit "fix the bug" |} []
           eq_refl eq_refl (Forall_nil _))).
  vm_compute. discriminate.
Defined.

(** ** Step controller *)

(** C4: when the last [user] message of the assembled list trims to
    [/exit], [step] returns a finish action and the state as it was, with
    no call to the model client: whatever the client, running the step
    leaves it untouched and the call count as it was. *)
Theorem C4_exit_short_circuit (prompt : Prompt) (st : State) (m : Message) :
  latest_user (_get_messages prompt st) = Some m ->
  strip (content m) = lit "/exit" ->
  step prompt st = Return (AgentFinishAction None) st
  /\ forall (c : Client) (l : client_state c) (calls : nat),
       run c l calls (step prompt st)
       = (Returned (AgentFinishAction None) st, l, calls).
Proof.
  intros Hl He.
  assert (E : step prompt st = Return (AgentFinishAction None) st).
  { unfold step. rewrite Hl. apply is_exit_true in He. rewrite He. reflexivity. }
  split; [exact E|]. intros c l calls. rewrite E. reflexivity.
Qed.

(** C4, witness: the user typed [/exit]. *)
Lemma C4_witness :
  step no_prompt
    (mkState [ActionEvent (Some USER) (MessageAction (lit " /exit
") false)] 3 10 42)
  = Return (AgentFinishAction None)
      (mkState [ActionEvent (Some USER) (MessageAction (lit " /exit
") false)] 3 10 42).
Proof.
  apply (@C4_exit_short_circuit no_prompt
           (mkState [ActionEvent (Some USER) (MessageAction (lit " /exit
") false)] 3 10 42)
           {| role := user; content := lit " /exit
" |}).
  - reflexivity.
  - reflexivity.
Defined.

(** C3 (as the code has it): on a step that calls the model and gets a
    response with a choice, the counter grows by the lengths of the
    contents of the messages sent plus the length of the response text
    after tag repair, that is, of the raw text and of the closing tags
    appended to it; nothing else in the state changes. *)
Theorem C3_character_count (prompt : Prompt) (st : State) (req : Request)
    (k : Response -> Step) (response : Response) (c : Choice)
    (cs : list Choice) :
  step prompt st = Completion req k ->
  choices response = c :: cs ->
  let raw := cm_content (message c) in
  let sent := sum_Z (List.map (fun m => len (content m)) (req_messages req)) in
  req_messages req = _get_messages prompt st
  /\ exists a st',
       k response = Return a st'
       /\ num_of_chars st' = (num_of_chars st + (sent + len (repair_tags raw)))%Z
       /\ len (repair_tags raw)
          = (len raw
             + len (closing_if_unterminated (lit "bash") raw)
             + len (closing_if_unterminated (lit "ipython") raw)
             + len (closing_if_unterminated (lit "browse") raw))%Z
       /\ history st' = history st /\ iteration st' = iteration st
       /\ max_iterations st' = max_iterations st.
Proof.
  intros Hs Hc raw sent. unfold step in Hs.
  destruct (match latest_user (_get_messages prompt st) with
            | Some latest_user_message => is_exit latest_user_message
            | None => false
            end); [discriminate|].
  injection Hs as <- <-. cbn [req_messages]. split; [reflexivity|].
  unfold parse_response. rewrite Hc. fold raw.
  destruct (classify_total (repair_tags raw)) as [a ->].
  eexists a, _. split; [reflexivity|].
  cbn [num_of_chars history iteration max_iterations].
  split; [reflexivity|]. split; [|auto].
  rewrite repair_tags_eq at 1. rewrite !len_app. lia.
Qed.

(** C3, witness: a first step whose response needs no repair. *)
Lemma C3_witness :
  exists a st',
    run (canned (lit "What should I do?")) tt 0
      (step no_prompt (mkState [] 0 10 0))
    = (Returned a st', tt, 1)
    /\ num_of_chars st'
       = (0 + (sum_Z (List.map (fun m => len (content m))
                        (_get_messages no_prompt (mkState [] 0 10 0)))
               + len (repair_tags (lit "What should I do?"))))%Z.
Proof.
  destruct (@C3_character_count no_prompt (mkState [] 0 10 0) _ _
              (mkResponse [mkChoice (mkChatMessage (lit "What should I do?"))])
              _ _ eq_refl eq_refl)
    as (_ & a & st' & Hk & Hn & _).
  exists a, st'. split; [|exact Hn].
  cbn [run step canned completion]. exact (f_equal (fun p => run (canned (lit "What should I do?")) tt 1 p) Hk).
Defined.

(** C3, counterexample to counting the raw response: the response
    [<execute_bash>\nls] has 17 characters, the messages sent have 173,
    and the counter grows by 205: the 15 characters of the appended
    [</execute_bash>] are counted too. *)
Lemma C3_counterexample :
  exists req k a st',
    step no_prompt (mkState [] 0 10 0) = Completion req k
    /\ k (mkResponse [mkChoice (mkChatMessage (lit "<execute_bash>
ls"))]) = Return a st'
    /\ a = CmdRunAction (lit "ls") []
    /\ sum_Z (List.map (fun m => len (content m)) (req_messages req)) = 173%Z
    /\ len (lit "<execute_bash>
ls") = 17%Z
    /\ num_of_chars st' = 205%Z
    /\ num_of_chars st'
       <> (0 + (sum_Z (List.map (fun m => len (content m)) (req_messages req))
                + len (lit "<execute_bash>
ls")))%Z.
Proof.
  eexists _, _, (CmdRunAction (lit "ls") []), (mkState [] 0 10 205).
  split; [reflexivity|].
  split; [vm_compute; reflexivity|].
  repeat split; try (vm_compute; reflexivity).
  vm_compute. discriminate.
Qed.

(** * Further properties of the module *)

(** ** Tag repair, continued *)

Module RepairMore.

Lemma contains_mono (t s x : str) :
  contains t s = true -> contains t (s ++ x) = true.
Proof.
  intros H. apply contains_iff in H as (i & pre & post & -> & _).
  apply contains_iff. exists (List.length pre), pre, (post ++ x).
  rewrite <- !app_assoc. auto.
Qed.

Lemma contains_middle (t a b : str) : contains t (a ++ t ++ b) = true.
Proof. apply contains_iff. exists (List.length a), a, b. auto. Qed.

(** What one round appends leaves the tests for a tag [T] as they were,
    when [T] is no part of the closing tag of the round. *)
Lemma contains_app_closing (T s s0 lang : str) :
  hd_error T = Some 60%N -> existsb (N.eqb 60) (tl T) = false ->
  contains T (exec_close lang) = false ->
  contains T (s ++ closing_if_unterminated lang s0) = contains T s.
Proof.
  intros H1 H2 H3. unfold closing_if_unterminated.
  destruct (contains (exec_open lang) s0 && negb (contains (exec_close lang) s0)).
  - apply contains_app_tag; auto.
  - rewrite app_nil_r. reflexivity.
Qed.

(** The repair creates no opening tag. *)
Lemma open_after_repair (k : kind) (s : str) :
  contains (open_tag k) (repair_tags s) = contains (open_tag k) s.
Proof.
  rewrite repair_tags_eq, !app_assoc.
  rewrite !contains_app_closing by (destruct k; reflexivity). reflexivity.
Qed.

Lemma closing_present (lang a b s : str) :
  contains (exec_open lang) s = true ->
  contains (exec_close lang) (a ++ closing_if_unterminated lang s ++ b) = true
  \/ contains (exec_close lang) s = true.
Proof.
  intros O. unfold closing_if_unterminated. rewrite O.
  destruct (contains (exec_close lang) s); [right; reflexivity|].
  left. cbn [andb negb]. apply contains_middle.
Qed.

Lemma close_after_repair (k : kind) (s : str) :
  k <> Finish ->
  contains (open_tag k) s = true ->
  contains (close_tag k) (repair_tags s) = true.
Proof.
  intros Hk O. rewrite repair_tags_eq. destruct k; [congruence| | |].
  - destruct (@closing_present (lit "bash") s
                (closing_if_unterminated (lit "ipython") s
                   ++ closing_if_unterminated (lit "browse") s) s O) as [H|H];
      [exact H | apply contains_mono, H].
  - rewrite app_assoc.
    destruct (@closing_present (lit "ipython")
                (s ++ closing_if_unterminated (lit "bash") s)
                (closing_if_unterminated (lit "browse") s) s O) as [H|H];
      [exact H | rewrite <- app_assoc; apply contains_mono, H].
  - rewrite !app_assoc.
    rewrite <- (app_nil_r (closing_if_unterminated (lit "browse") s)).
    rewrite <- !app_assoc.
    rewrite (app_assoc s), (app_assoc (s ++ _)).
    destruct (@closing_present (lit "browse")
                ((s ++ closing_if_unterminated (lit "bash") s)
                   ++ closing_if_unterminated (lit "ipython") s) [] s O) as [H|H];
      [exact H | rewrite <- !app_assoc; apply contains_mono, H].
Qed.

End RepairMore.
Import RepairMore.

(** X1: in a repaired text every opening command, code or browse tag has
    its closing tag somewhere in the text, and the repair brings in no
    opening tag of its own. *)
Theorem repaired_text_is_terminated (k : kind) (s : str) :
  k <> Finish ->
  contains (open_tag k) (repair_tags s) = contains (open_tag k) s
  /\ (contains (open_tag k) (repair_tags s) = true ->
      contains (close_tag k) (repair_tags s) = true).
Proof.
  intros Hk. split; [apply open_after_repair|].
  rewrite open_after_repair. apply close_after_repair, Hk.
Qed.

(** X1, witness: an unterminated code tag. *)
Lemma repaired_text_is_terminated_witness :
  contains (open_tag Code) (repair_tags (lit "<execute_ipython>print(1)"))
  = contains (open_tag Code) (lit "<execute_ipython>print(1)")
  /\ (contains (open_tag Code) (repair_tags (lit "<execute_ipython>print(1)"))
      = true ->
      contains (close_tag Code) (repair_tags (lit "<execute_ipython>print(1)"))
      = true).
Proof.
  apply (@repaired_text_is_terminated Code (lit "<execute_ipython>print(1)")).
  discriminate.
Defined.

(** X2: repairing twice is repairing once. *)
Theorem repair_tags_idempotent (s : str) :
  repair_tags (repair_tags s) = repair_tags s.
Proof.
  rewrite (repair_tags_eq (repair_tags s)).
  assert (H : forall k lang, k <> Finish ->
              exec_open lang = open_tag k -> exec_close lang = close_tag k ->
              closing_if_unterminated lang (repair_tags s) = []).
  { intros k lang Hk Ho Hc. unfold closing_if_unterminated. rewrite Ho, Hc.
    destruct (contains (open_tag k) (repair_tags s)) eqn:O; [|reflexivity].
    rewrite open_after_repair in O.
    rewrite (@close_after_repair k s Hk O). reflexivity. }
  rewrite (H Command (lit "bash")), (H Code (lit "ipython")),
    (H Browse (lit "browse")) by (reflexivity || discriminate).
  rewrite !app_nil_r. reflexivity.
Qed.

(** ** Truncator, continued *)

Lemma truncate_short (text : str) (max_chars : Z) :
  (len text <= max_chars)%Z -> truncate_observation text max_chars = text.
Proof.
  intros H. unfold truncate_observation. apply Z.leb_le in H. rewrite H.
  reflexivity.
Qed.

Lemma truncate_long (text : str) (max_chars : Z) :
  (max_chars < len text)%Z -> (0 <= max_chars)%Z ->
  truncate_observation text max_chars
  = firstn (Z.to_nat (max_chars / 2)) text ++ truncation_marker
      ++ (if (max_chars <? 2)%Z then text
          else skipn (List.length text - Z.to_nat (max_chars / 2)) text).
Proof.
  intros Hlong Hpos. unfold truncate_observation.
  destruct (Z.leb_spec (len text) max_chars) as [|_]; [lia|].
  assert (Hh : (0 <= max_chars / 2)%Z) by (apply Z.div_pos; lia).
  unfold slice_to, slice_from.
  destruct (Z.ltb_spec (max_chars / 2) 0) as [|_]; [lia|].
  do 2 f_equal.
  destruct (Z.ltb_spec max_chars 2) as [Hs|Hb].
  - assert (E : (max_chars / 2 = 0)%Z) by (apply Z.div_small; lia).
    rewrite E. reflexivity.
  - assert (1 <= max_chars / 2)%Z by (apply Z.div_le_lower_bound; lia).
    destruct (Z.ltb_spec (- (max_chars / 2)) 0) as [_|]; [|lia].
    f_equal. unfold len. lia.
Qed.

(** X3: for [max_chars >= 0] the result is never longer than the text plus
    the marker, and for [max_chars >= 2] never longer than
    [max_chars + len(marker)]: that is the bound the truncation gives. *)
Theorem truncate_observation_bounded (text : str) (max_chars : Z) :
  ((0 <= max_chars)%Z ->
   (len (truncate_observation text max_chars)
    <= len text + len truncation_marker)%Z)
  /\ ((2 <= max_chars)%Z ->
      (len (truncate_observation text max_chars)
       <= max_chars + len truncation_marker)%Z).
Proof.
  assert (Hm : (0 <= len truncation_marker)%Z) by (unfold len; lia).
  split; intros Hpos.
  - destruct (Z.le_gt_cases (len text) max_chars) as [Hs|Hl].
    + rewrite truncate_short by exact Hs. lia.
    + rewrite truncate_long by lia. rewrite !len_app.
      assert (Hh : (0 <= max_chars / 2 <= max_chars)%Z).
      { split; [apply Z.div_pos; lia|]. apply Z.div_le_upper_bound; lia. }
      destruct (Z.ltb_spec max_chars 2).
      * assert (E : (max_chars / 2 = 0)%Z) by (apply Z.div_small; lia).
        rewrite E. cbn [Z.to_nat firstn]. unfold len at 1. simpl List.length. lia.
      * unfold len at 1 3. rewrite length_firstn, length_skipn.
        assert (2 * (max_chars / 2) <= max_chars)%Z
          by (apply Z.mul_div_le; lia).
        unfold len in *. lia.
  - destruct (Z.le_gt_cases (len text) max_chars) as [Hs|Hl].
    + rewrite truncate_short by exact Hs. lia.
    + rewrite truncate_long by lia. rewrite !len_app.
      destruct (Z.ltb_spec max_chars 2); [lia|].
      unfold len at 1 3. rewrite length_firstn, length_skipn.
      assert (2 * (max_chars / 2) <= max_chars)%Z
        by (apply Z.mul_div_le; lia).
      assert (0 <= max_chars / 2)%Z by (apply Z.div_pos; lia).
      unfold len in *. lia.
Qed.

(** X3, witness: sixteen characters cut down to six. *)
Lemma truncate_observation_bounded_witness :
  (len (truncate_observation (lit "0123456789abcdef") 6)
   <= 6 + len truncation_marker)%Z.
Proof.
  apply (proj2 (truncate_observation_bounded (lit "0123456789abcdef") 6)).
  lia.
Defined.

(** X4: with [max_chars] 0 or 1 nothing is cut from a longer text: the
    half is 0, [observation[-0:]] is the whole observation, and the result
    is the marker followed by the text. *)
Theorem truncate_observation_half_zero (text : str) (max_chars : Z) :
  (0 <= max_chars <= 1)%Z -> (max_chars < len text)%Z ->
  truncate_observation text max_chars = truncation_marker ++ text.
Proof.
  intros Hm Hl. rewrite truncate_long by lia.
  assert (E : (max_chars / 2 = 0)%Z) by (apply Z.div_small; lia).
  rewrite E. destruct (Z.ltb_spec max_chars 2); [reflexivity | lia].
Qed.

(** X4, witness: three characters and [max_chars = 1]. *)
Lemma truncate_observation_half_zero_witness :
  truncate_observation (lit "abc") 1 = truncation_marker ++ lit "abc".
Proof.
  apply (@truncate_observation_half_zero (lit "abc") 1); [lia | reflexivity].
Defined.

(** ** Observation messages *)

Module Lines.

Lemma NL_char : NL = [10%N].
Proof. reflexivity. Qed.

Lemma split_nonempty (s : str) : split 10%N s <> [].
Proof.
  induction s as [|c s IH]; cbn [split]; [discriminate|].
  destruct (N.eqb c 10); [discriminate|].
  destruct (split 10%N s); discriminate.
Qed.

Lemma join_cons (p : str) (ps : list str) :
  ps <> [] -> join NL (p :: ps) = p ++ NL ++ join NL ps.
Proof. destruct ps; [congruence | reflexivity]. Qed.

(** Joining the lines again gives the text back. *)
Lemma join_split (s : str) : join NL (split 10%N s) = s.
Proof.
  induction s as [|c s IH]; cbn [split]; [reflexivity|].
  destruct (N.eqb_spec c 10) as [->|Hc].
  - rewrite join_cons by apply split_nonempty. rewrite IH. reflexivity.
  - pose proof (split_nonempty s) as Hn.
    destruct (split 10%N s) as [|l ls]; [congruence|].
    destruct ls as [|l' ls]; cbn [join app] in *; rewrite <- IH; reflexivity.
Qed.

Lemma no_newline_cons (c : char) (l : str) :
  existsb (N.eqb 10) (c :: l) = false ->
  N.eqb c 10 = false /\ existsb (N.eqb 10) l = false.
Proof.
  cbn [existsb]. intros H. apply orb_false_iff in H as [Hc Hl].
  rewrite N.eqb_sym. auto.
Qed.

Lemma split_line (l s : str) :
  existsb (N.eqb 10) l = false ->
  split 10%N (l ++ 10%N :: s) = l :: split 10%N s.
Proof.
  induction l as [|c l IH]; intros H; [reflexivity|].
  apply no_newline_cons in H as [Hc Hl].
  cbn [app split]. rewrite Hc, (IH Hl). reflexivity.
Qed.

Lemma split_last_line (l : str) :
  existsb (N.eqb 10) l = false -> split 10%N l = [l].
Proof.
  induction l as [|c l IH]; intros H; [reflexivity|].
  apply no_newline_cons in H as [Hc Hl].
  cbn [split]. rewrite Hc, (IH Hl). reflexivity.
Qed.

(** No line holds a newline. *)
Lemma split_lines_clean (s : str) :
  Forall (fun l => existsb (N.eqb 10) l = false) (split 10%N s).
Proof.
  induction s as [|c s IH]; cbn [split]; [repeat constructor|].
  destruct (N.eqb c 10) eqn:E; [constructor; [reflexivity | exact IH]|].
  assert (E' : N.eqb 10 c = false) by (rewrite N.eqb_sym; exact E).
  destruct (split 10%N s) as [|l ls].
  - repeat constructor. cbn [existsb]. rewrite E'. reflexivity.
  - inversion IH as [|? ? Hl Hls]; subst. constructor; [|exact Hls].
    cbn [existsb]. rewrite E'. exact Hl.
Qed.

(** Splitting joined lines gives the lines back. *)
Lemma split_join (ls : list str) :
  ls <> [] -> Forall (fun l => existsb (N.eqb 10) l = false) ls ->
  split 10%N (join NL ls) = ls.
Proof.
  induction ls as [|l ls IH]; [congruence|]. intros _ H.
  inversion H as [|? ? Hl Hls]; subst.
  destruct ls as [|l' ls].
  - apply split_last_line, Hl.
  - rewrite join_cons by discriminate.
    change (NL ++ join NL (l' :: ls)) with (10%N :: join NL (l' :: ls)).
    rewrite split_line by exact Hl.
    rewrite IH; [reflexivity | discriminate | exact Hls].
Qed.

(** The first line starts the text; every line is a piece of it. *)
Lemma split_pieces (s : str) :
  match split 10%N s with
  | [] => False
  | l0 :: ls =>
      (exists r, s = l0 ++ r)
      /\ Forall (fun l => exists pre post, s = pre ++ l ++ post) ls
  end.
Proof.
  induction s as [|c s IH]; cbn [split].
  - split; [exists []; reflexivity | constructor].
  - destruct (split 10%N s) as [|l0 ls]; [destruct IH|].
    destruct IH as [[r Hr] Hls].
    assert (Hls' : Forall (fun l => exists pre post, c :: s = pre ++ l ++ post) ls).
    { eapply Forall_impl; [|exact Hls]. intros l (pre & post & E).
      exists (c :: pre), post. rewrite E. reflexivity. }
    destruct (N.eqb c 10).
    + split; [exists (c :: s); reflexivity|].
      constructor; [|exact Hls'].
      exists [c], r. rewrite Hr. reflexivity.
    + split; [exists r; rewrite Hr; reflexivity | exact Hls'].
Qed.

Lemma line_in_text (t s l : str) :
  In l (split 10%N s) -> contains t l = true -> contains t s = true.
Proof.
  intros Hin Ht. pose proof (split_pieces s) as P.
  destruct (split 10%N s) as [|l0 ls]; [destruct P|].
  destruct P as [[r Hr] Hls].
  apply contains_iff in Ht as (i & p & q & El & _).
  destruct Hin as [E0|Hin].
  - apply contains_iff. exists (List.length p), p, (q ++ r).
    rewrite Hr, E0, El, <- !app_assoc. auto.
  - rewrite Forall_forall in Hls. destruct (Hls _ Hin) as (pre & post & E).
    apply contains_iff. exists (List.length (pre ++ p)), (pre ++ p), (q ++ post).
    rewrite E, El, <- !app_assoc. auto.
Qed.

(** A text without an image marker is left as it is. *)
Lemma mask_images_clean (s : str) :
  contains image_marker s = false -> mask_images s = s.
Proof.
  intros H. unfold mask_images.
  rewrite <- (join_split s) at 2. f_equal.
  rewrite <- (map_id (split 10%N s)) at 2.
  apply map_ext_in. intros l Hl. unfold mask_line.
  destruct (contains image_marker l) eqn:E; [|reflexivity].
  rewrite (@line_in_text _ _ _ Hl E) in H. discriminate.
Qed.

Lemma mask_line_clean (l : str) :
  existsb (N.eqb 10) l = false -> existsb (N.eqb 10) (mask_line l) = false.
Proof.
  intros H. unfold mask_line.
  destruct (contains image_marker l); [reflexivity | exact H].
Qed.

Lemma mask_line_idem (l : str) : mask_line (mask_line l) = mask_line l.
Proof.
  unfold mask_line. destruct (contains image_marker l) eqn:E.
  - vm_compute. reflexivity.
  - rewrite E. reflexivity.
Qed.

(** The lines of the masked text are the masked lines of the text. *)
Lemma split_mask_images (s : str) :
  split 10%N (mask_images s) = List.map mask_line (split 10%N s).
Proof.
  unfold mask_images. apply split_join.
  - pose proof (split_nonempty s). destruct (split 10%N s); [congruence | discriminate].
  - apply Forall_map. eapply Forall_impl; [|apply split_lines_clean].
    intros l. apply mask_line_clean.
Qed.

End Lines.
Import Lines.

Lemma truncate_len_default (text : str) :
  (len (truncate_observation text default_max_chars)
   <= 10000 + len truncation_marker)%Z.
Proof.
  assert (Hm : (0 <= len truncation_marker)%Z) by (unfold len; lia).
  change default_max_chars with 10000%Z.
  destruct (Z.le_gt_cases (len text) 10000) as [Hs|Hl].
  - rewrite truncate_short by exact Hs. lia.
  - rewrite truncate_long by lia. rewrite !len_app.
    change (10000 <? 2)%Z with false. change (Z.to_nat (10000 / 2)) with 5000.
    unfold len at 1 3. rewrite length_firstn, length_skipn.
    unfold len in *. lia.
Qed.

Lemma contains_skip_prefix (t a s : str) (x : char) :
  hd_error t = Some x -> existsb (N.eqb x) a = false ->
  contains t (a ++ s) = contains t s.
Proof.
  destruct t as [|x' t']; [discriminate|]. intros [= ->] H.
  induction a as [|c a IH]; [reflexivity|].
  cbn [existsb] in H. apply orb_false_iff in H as [Hc Ha].
  cbn [app contains startswith]. rewrite Hc, (IH Ha). reflexivity.
Qed.

Lemma mask_images_prefix (c : str) :
  mask_images (observation_prefix ++ c) = observation_prefix ++ mask_images c.
Proof.
  unfold mask_images.
  change (observation_prefix ++ c) with (lit "OBSERVATION:" ++ 10%N :: c).
  rewrite split_line by reflexivity. cbn [List.map].
  rewrite join_cons.
  - change (mask_line (lit "OBSERVATION:")) with (lit "OBSERVATION:").
    rewrite NL_char, app_assoc. reflexivity.
  - pose proof (split_nonempty c). destruct (split 10%N c); [congruence | discriminate].
Qed.

Lemma get_observation_message_code (c : str) :
  get_observation_message (IPythonRunCellObservation c)
  = Some {| role := user;
            content := truncate_observation
                         (observation_prefix ++ mask_images c)
                         default_max_chars |}.
Proof. rewrite <- mask_images_prefix. reflexivity. Qed.

Lemma truncate_keeps_prefix (p t : str) (max_chars : Z) :
  (2 * len p <= max_chars)%Z ->
  startswith p (truncate_observation (p ++ t) max_chars) = true.
Proof.
  intros H.
  destruct (Z.le_gt_cases (len (p ++ t)) max_chars) as [Hs|Hl].
  - rewrite truncate_short by exact Hs. apply startswith_app.
  - assert (0 <= len p)%Z by (unfold len; lia).
    rewrite truncate_long by lia.
    assert (Hh : (len p <= max_chars / 2)%Z)
      by (apply Z.div_le_lower_bound; lia).
    rewrite firstn_app.
    rewrite (@firstn_all2 _ (Z.to_nat (max_chars / 2)) p)
      by (unfold len in Hh; lia).
    rewrite <- !app_assoc. apply startswith_app.
Qed.

(** X5: a code observation whose content holds no image marker goes into
    the message as it is, behind the prefix and freed of its middle when
    too long. *)
Theorem code_observation_without_image (c : str) :
  contains image_marker c = false ->
  get_observation_message (IPythonRunCellObservation c)
  = Some {| role := user;
            content := truncate_observation (observation_prefix ++ c)
                         default_max_chars |}.
Proof.
  intros H. rewrite get_observation_message_code, mask_images_clean by exact H.
  reflexivity.
Qed.

(** X5, witness: two lines of plain output. *)
Lemma code_observation_without_image_witness :
  get_observation_message (IPythonRunCellObservation (lit "line 1
line 2"))
  = Some {| role := user;
            content := truncate_observation
                         (observation_prefix ++ lit "line 1
line 2") default_max_chars |}.
Proof.
  apply (@code_observation_without_image (lit "line 1
line 2")).
  reflexivity.
Defined.

(** X6: in the message of a code observation that is not cut, the lines
    are the lines of the prefixed observation, one for one: a line that
    holds an image marker is the placeholder, every other line is kept.
    No line of the message holds image data of the observation. *)
Theorem code_observation_images_masked (c : str) (msg : Message) :
  get_observation_message (IPythonRunCellObservation c) = Some msg ->
  (len (content msg) <= default_max_chars)%Z ->
  split 10%N (content msg)
  = List.map (fun line => if contains image_marker line
                          then image_placeholder else line)
      (split 10%N (observation_prefix ++ c))
  /\ Forall (fun line => contains image_marker line = true ->
                         line = image_placeholder)
       (split 10%N (content msg)).
Proof.
  intros E Hlen.
  assert (Hc : content msg = mask_images (observation_prefix ++ c)).
  { rewrite get_observation_message_code, <- mask_images_prefix in E.
    remember (mask_images (observation_prefix ++ c)) as t eqn:Et.
    injection E as <-. cbn [content] in *.
    destruct (Z.le_gt_cases (len t) default_max_chars) as [Hs|Hl].
    - apply truncate_short, Hs.
    - exfalso.
      rewrite truncate_long in Hlen by (unfold default_max_chars in *; lia).
      rewrite !len_app in Hlen.
      change (default_max_chars <? 2)%Z with false in Hlen.
      unfold len at 1 3 in Hlen.
      rewrite length_firstn, length_skipn in Hlen.
      change (Z.to_nat (default_max_chars / 2)) with 5000 in Hlen.
      change default_max_chars with 10000%Z in *.
      assert (0 < len truncation_marker)%Z by reflexivity.
      unfold len in *. lia. }
  rewrite Hc, split_mask_images. split; [reflexivity|].
  apply Forall_map, Forall_forall. intros l _. unfold mask_line.
  destruct (contains image_marker l) eqn:El; [reflexivity|].
  rewrite El. discriminate.
Qed.

(** X6, witness: a plot between two lines of text. *)
Lemma code_observation_images_masked_witness :
  split 10%N
    (observation_prefix ++ lit "plot:
![image](data:image/png;base64, ...) already displayed to user
done")
  = List.map (fun line => if contains image_marker line
                          then image_placeholder else line)
      (split 10%N (observation_prefix ++ lit "plot:
![image](data:image/png;base64,iVBORw0KGgo=)
done")).
Proof.
  apply (@code_observation_images_masked
           (lit "plot:
![image](data:image/png;base64,iVBORw0KGgo=)
done")
           {| role := user;
              content := observation_prefix ++ lit "plot:
![image](data:image/png;base64, ...) already displayed to user
done" |}).
  - vm_compute. reflexivity.
  - vm_compute. discriminate.
Defined.

(** X7: every observation that gets a message gets one with role [user]
    whose content starts with [OBSERVATION:] and a newline, whatever the
    observation holds and however long it is. *)
Theorem observation_message_prefix (obs : Observation) (msg : Message) :
  get_observation_message obs = Some msg ->
  role msg = user /\ startswith observation_prefix (content msg) = true.
Proof.
  destruct obs as [c|c id code|c|].
  - intros [= <-]. split; [reflexivity|].
    exact (startswith_app observation_prefix
             (truncate_observation c default_max_chars)).
  - intros [= <-]. split; [reflexivity|].
    exact (startswith_app observation_prefix
             (truncate_observation c default_max_chars ++ _)).
  - rewrite get_observation_message_code. intros [= <-].
    split; [reflexivity|].
    apply (@truncate_keeps_prefix observation_prefix (mask_images c)
             default_max_chars).
    discriminate.
  - discriminate.
Qed.

(** X7, witness: a browser observation. *)
Lemma observation_message_prefix_witness :
  role {| role := user; content := observation_prefix ++ lit "<html>" |} = user
  /\ startswith observation_prefix (observation_prefix ++ lit "<html>") = true.
Proof.
  apply (@observation_message_prefix (BrowserOutputObservation (lit "<html>"))
           {| role := user; content := observation_prefix ++ lit "<html>" |}).
  reflexivity.
Defined.

(** X8: the content of an observation message is bounded whatever the
    size of the observation: the prefix, 10000 characters and the marker,
    and for a command the line with its identifier and exit code. *)
Theorem observation_message_bounded (obs : Observation) (msg : Message) :
  get_observation_message obs = Some msg ->
  match obs with
  | CmdOutputObservation _ command_id exit_code =>
      (len (content msg)
       <= len observation_prefix + 10000 + len truncation_marker
          + len (lit "
[Command " ++ str_of_int command_id ++ lit " finished with exit code "
                   ++ str_of_int exit_code ++ lit "]]"))%Z
  | IPythonRunCellObservation _ =>
      (len (content msg) <= 10000 + len truncation_marker)%Z
  | _ =>
      (len (content msg)
       <= len observation_prefix + 10000 + len truncation_marker)%Z
  end.
Proof.
  assert (B : forall c,
            (len (truncate_observation c default_max_chars)
             <= 10000 + len truncation_marker)%Z).
  { exact truncate_len_default. }
  destruct obs as [c|c id code|c|].
  - intros [= <-].
    change (len (observation_prefix ++ truncate_observation c default_max_chars)
            <= len observation_prefix + 10000 + len truncation_marker)%Z.
    rewrite len_app. specialize (B c). lia.
  - intros [= <-].
    match goal with
    | |- (_ <= _ + len ?suffix)%Z =>
        change (len ((observation_prefix
                        ++ truncate_observation c default_max_chars) ++ suffix)
                <= len observation_prefix + 10000 + len truncation_marker
                   + len suffix)%Z
    end.
    rewrite !len_app. specialize (B c). lia.
  - rewrite get_observation_message_code. intros [= <-]. apply B.
  - discriminate.
Qed.

(** X8, witness: a short command output. *)
Lemma observation_message_bounded_witness :
  (len (lit "OBSERVATION:
ok
[Command 7 finished with exit code 0]]")
   <= len observation_prefix + 10000 + len truncation_marker
      + len (lit "
[Command " ++ str_of_int 7 ++ lit " finished with exit code "
               ++ str_of_int 0 ++ lit "]]"))%Z.
Proof.
  apply (@observation_message_bounded (CmdOutputObservation (lit "ok") 7 0)
           {| role := user; content := lit "OBSERVATION:
ok
[Command 7 finished with exit code 0]]" |}).
  reflexivity.
Defined.

(** ** Response classifier, continued *)

(** X9: what the cascade returns is always in shape: payload and thought
    are trimmed, a command is never [exit], a code action carries the
    agent's kernel init code, a message is the whole text and waits for a
    response. *)
Theorem classify_output_shape (s : str) (a : Action) :
  classify s = inr a ->
  match a with
  | AgentFinishAction (Some thought) => strip thought = thought
  | AgentFinishAction None => True
  | CmdRunAction command thought =>
      strip command = command /\ strip thought = thought
      /\ command <> lit "exit"
  | IPythonRunCellAction code thought kernel_init_code =>
      strip code = code /\ strip thought = thought
      /\ kernel_init_code = jupyter_kernel_init_code
  | BrowseInteractiveAction browser_actions thought =>
      strip browser_actions = browser_actions /\ strip thought = thought
  | MessageAction content wait_for_response =>
      content = s /\ wait_for_response = true
  | OtherAction => False
  end.
Proof.
  intros E.
  destruct (pair_in_dec Finish s) as [PF|NF].
  { destruct (pair_matched PF) as (pre & body & post & H).
    rewrite (classify_finish H) in E. injection E as <-. apply strip_idem. }
  destruct (pair_in_dec Command s) as [PC|NC].
  { destruct (pair_matched PC) as (pre & body & post & H).
    rewrite (classify_command NF H) in E.
    destruct (str_eqb (strip body) (lit "exit")) eqn:Ex; injection E as <-.
    - auto.
    - repeat split; try apply strip_idem.
      intros Hx. apply str_eqb_eq in Hx. congruence. }
  destruct (pair_in_dec Code s) as [PI|NI].
  { destruct (pair_matched PI) as (pre & body & post & H).
    rewrite (classify_code NF NC H) in E. injection E as <-.
    repeat split; apply strip_idem. }
  destruct (pair_in_dec Browse s) as [PB|NB].
  { destruct (pair_matched PB) as (pre & body & post & H).
    rewrite (classify_browse NF NC NI H) in E. injection E as <-.
    repeat split; apply strip_idem. }
  rewrite (classify_message NF NC NI NB) in E. injection E as <-. auto.
Qed.

(** X9, witness: a command with its thought. *)
Lemma classify_output_shape_witness :
  strip (lit "ls -la") = lit "ls -la" /\ strip (lit "List it.") = lit "List it."
  /\ lit "ls -la" <> lit "exit".
Proof.
  apply (@classify_output_shape
           (lit "List it. <execute_bash> ls -la </execute_bash>")
           (CmdRunAction (lit "ls -la") (lit "List it."))).
  vm_compute. reflexivity.
Defined.

(** X10: a pattern matches exactly when the text holds its opening tag
    and, after it, its closing tag; the match lies inside the text and
    spans at least the two tags. *)
Theorem search_matches_pairs (k : kind) (s : str) :
  (pair_in k s <-> exists m, search (regex_of k) s = Some m)
  /\ (forall m, search (regex_of k) s = Some m ->
        m_start m + List.length (open_tag k) + List.length (close_tag k)
        <= m_end m
        /\ m_end m <= List.length s).
Proof.
  split.
  - split.
    + intros P. destruct (pair_matched P) as (pre & body & post & H).
      eexists. exact (search_span k H).
    + intros [m E]. destruct (pair_in_dec k s) as [P|N]; [exact P|].
      apply search_kind_None in N. congruence.
  - intros m E. apply search_kind_Some in E as (pre & body & post & (Hs & _) & ->).
    cbn [m_start m_end span_match]. rewrite Hs, !length_app. lia.
Qed.

(** X10, witness: one browse block. *)
Lemma search_matches_pairs_witness :
  pair_in Browse (lit "<execute_browse>goto('x')</execute_browse>").
Proof.
  apply (proj1 (search_matches_pairs Browse
                  (lit "<execute_browse>goto('x')</execute_browse>"))).
  eexists. vm_compute. reflexivity.
Defined.

(** ** Formatting an action and reading it back *)

Module RoundTrip.

Lemma startswith_before_char (x : char) (t u r : str) :
  existsb (N.eqb x) t = false ->
  startswith t (u ++ x :: r) = true -> startswith t u = true.
Proof.
  revert u; induction t as [|b t IH]; intros u Hb H; [reflexivity|].
  cbn [existsb] in Hb. apply orb_false_iff in Hb as [Hb Ht].
  destruct u as [|a u]; cbn [app startswith] in *.
  - apply andb_true_iff in H as [H _]. apply N.eqb_eq in H. subst b.
    rewrite N.eqb_refl in Hb. discriminate.
  - apply andb_true_iff in H as [-> H]. exact (IH u Ht H).
Qed.

(** A text without the character [x] occurs on one side of an [x]. *)
Lemma occurs_split_char (x : char) (t a b : str) (j : nat) :
  existsb (N.eqb x) t = false ->
  occurs_at t (a ++ x :: b) j ->
  occurs_at t a j
  \/ (List.length a < j /\ occurs_at t b (j - S (List.length a))).
Proof.
  intros Hx. revert j; induction a as [|c a IH]; intros j H.
  - destruct j as [|j].
    + left. apply occurs_at_0. apply occurs_at_0 in H.
      exact (startswith_before_char x t [] b Hx H).
    + right. pose proof (proj1 (occurs_at_S t x b j) H) as H'.
      cbn [List.length]. split; [lia|].
      rewrite Nat.sub_succ, Nat.sub_0_r. exact H'.
  - destruct j as [|j].
    + left. apply occurs_at_0. apply occurs_at_0 in H.
      exact (startswith_before_char x t (c :: a) b Hx H).
    + pose proof (proj1 (occurs_at_S t c (a ++ x :: b) j) H) as H'.
      destruct (IH j H') as [Hl|[Hlt Hr]].
      * left. apply occurs_at_S, Hl.
      * right. cbn [List.length]. split; [lia|]. exact Hr.
Qed.

Lemma not_contained (t s : str) (j : nat) :
  contains t s = false -> ~ occurs_at t s j.
Proof. intros H. apply contains_false, H. Qed.

(** The span a search finds in a formatted action: the tags put in by
    [action_to_str], around the payload and its two newlines. *)
Lemma formatted_span (g : bool) (o c thought payload : str) :
  existsb (N.eqb 10) o = false -> existsb (N.eqb 10) c = false -> c <> [] ->
  contains o thought = false ->
  (g = false -> contains c payload = false) ->
  matched_span g o c
    ((thought ++ [10%N]) ++ o ++ (10%N :: payload ++ [10%N]) ++ c ++ [])
    (thought ++ [10%N]) (10%N :: payload ++ [10%N]) [].
Proof.
  intros Ho Hc Hne Hth Hpay. split; [reflexivity|]. split.
  - apply find_from_Some. split.
    + exists (thought ++ [10%N]), ((10%N :: payload ++ [10%N]) ++ c ++ []). auto.
    + intros j Hj. rewrite <- app_assoc in Hj. cbn [app] in Hj.
      apply (@occurs_split_char 10%N o thought _ j Ho) in Hj as [Hl|[Hlt _]].
      * destruct (@not_contained _ _ j Hth Hl).
      * rewrite length_app. cbn [List.length]. lia.
  - assert (Hocc : occurs_at c ((10%N :: payload ++ [10%N]) ++ c ++ [])
                     (List.length (10%N :: payload ++ [10%N])))
      by (exists (10%N :: payload ++ [10%N]), []; auto).
    destruct g; cbn [locate].
    + apply rfind_from_Some. split; [exact Hocc|].
      intros j Hj. apply occurs_at_le in Hj. rewrite !length_app in Hj.
      cbn [List.length] in *. rewrite length_app in *. cbn [List.length] in *. lia.
    + apply find_from_Some. split; [exact Hocc|].
      intros j Hj. cbn [app List.length] in *. rewrite <- app_assoc in Hj.
      cbn [app] in Hj. rewrite length_app. cbn [List.length].
      apply (@occurs_split_char 10%N c [] _ j Hc) in Hj as [Hl|[Hlt Hj]].
      * apply occurs_at_le in Hl. cbn [List.length] in Hl.
        destruct c; [congruence | cbn [List.length] in Hl; lia].
      * apply (@occurs_split_char 10%N c payload _ _ Hc) in Hj as [Hl|[Hlt' _]].
        -- destruct (@not_contained _ _ _ (Hpay eq_refl) Hl).
        -- cbn [List.length] in *. lia.
Qed.

Lemma lstrip_snoc_space (x : str) (c : char) :
  isspace c = true ->
  lstrip (x ++ [c]) = match lstrip x with [] => [] | _ :: _ => lstrip x ++ [c] end.
Proof.
  intros Hc. induction x as [|a x IH]; cbn [app lstrip].
  - rewrite Hc. reflexivity.
  - destruct (isspace a); [exact IH | reflexivity].
Qed.

Lemma rstrip_snoc_space (y : str) (c : char) :
  isspace c = true -> rstrip (y ++ [c]) = rstrip y.
Proof.
  intros Hc. unfold rstrip. rewrite rev_app_distr. cbn [rev app lstrip].
  rewrite Hc. reflexivity.
Qed.

Lemma strip_snoc_space (x : str) (c : char) :
  isspace c = true -> strip (x ++ [c]) = strip x.
Proof.
  intros Hc. unfold strip. rewrite lstrip_snoc_space by exact Hc.
  destruct (lstrip x) as [|a l]; [reflexivity|].
  apply rstrip_snoc_space, Hc.
Qed.

Lemma strip_newlines (x : str) : strip (10%N :: x ++ [10%N]) = strip x.
Proof.
  change (10%N :: x ++ [10%N]) with ((10%N :: x) ++ [10%N]).
  rewrite strip_snoc_space by reflexivity. reflexivity.
Qed.

(** Taking a lazy match out of a formatted action leaves the thought. *)
Lemma formatted_thought (o c thought payload : str) :
  o <> [] ->
  matched_span false o c
    ((thought ++ [10%N]) ++ o ++ (10%N :: payload ++ [10%N]) ++ c ++ [])
    (thought ++ [10%N]) (10%N :: payload ++ [10%N]) [] ->
  strip (replace (o ++ (10%N :: payload ++ [10%N]) ++ c) []
           ((thought ++ [10%N]) ++ o ++ (10%N :: payload ++ [10%N]) ++ c ++ []))
  = strip thought.
Proof.
  intros Ho (_ & F & _). apply find_from_Some in F as [_ Hmin].
  replace ((thought ++ [10%N]) ++ o ++ (10%N :: payload ++ [10%N]) ++ c ++ [])
    with ((thought ++ [10%N]) ++ (o ++ (10%N :: payload ++ [10%N]) ++ c) ++ [])
    in * by (rewrite <- !app_assoc; reflexivity).
  rewrite replace_once.
  - rewrite app_nil_r. apply strip_snoc_space. reflexivity.
  - destruct o; [congruence | discriminate].
  - intros j (p & q & Hj & <-). apply Hmin.
    exists p, (((10%N :: payload ++ [10%N]) ++ c) ++ q).
    rewrite Hj, <- !app_assoc. auto.
  - destruct o; [congruence | reflexivity].
Qed.

Lemma action_to_str_command (command thought : str) :
  action_to_str (CmdRunAction command thought)
  = (thought ++ [10%N]) ++ bash_open ++ (10%N :: command ++ [10%N])
      ++ bash_close ++ [].
Proof.
  unfold action_to_str. rewrite app_nil_r, <- !app_assoc. cbn [app].
  rewrite <- !app_assoc. reflexivity.
Qed.

Lemma action_to_str_code (code thought kernel_init_code : str) :
  action_to_str (IPythonRunCellAction code thought kernel_init_code)
  = (thought ++ [10%N]) ++ ipython_open ++ (10%N :: code ++ [10%N])
      ++ ipython_close ++ [].
Proof.
  unfold action_to_str. rewrite app_nil_r, <- !app_assoc. cbn [app].
  rewrite <- !app_assoc. reflexivity.
Qed.

Lemma action_to_str_browse (browser_actions thought : str) :
  action_to_str (BrowseInteractiveAction browser_actions thought)
  = (thought ++ [10%N]) ++ browse_open ++ (10%N :: browser_actions ++ [10%N])
      ++ browse_close ++ [].
Proof.
  unfold action_to_str. rewrite app_nil_r, <- !app_assoc. cbn [app].
  rewrite <- !app_assoc. reflexivity.
Qed.

End RoundTrip.
Import RoundTrip.

(** X11: a command action written out by [action_to_str] and sent through
    the repair and the cascade comes back as the same command and
    thought, both trimmed (as a finish action when the command is
    [exit]), provided the text holds no finish pair, no opening code or
    browse tag without its closing tag, the thought no opening command
    tag and the command no closing command tag. *)
Theorem command_round_trip (command thought : str) :
  ~ pair_in Finish (action_to_str (CmdRunAction command thought)) ->
  terminated Code (action_to_str (CmdRunAction command thought)) = true ->
  terminated Browse (action_to_str (CmdRunAction command thought)) = true ->
  contains bash_open thought = false ->
  contains bash_close command = false ->
  repair_tags (action_to_str (CmdRunAction command thought))
  = action_to_str (CmdRunAction command thought)
  /\ classify (repair_tags (action_to_str (CmdRunAction command thought)))
     = if str_eqb (strip command) (lit "exit")
       then inr (AgentFinishAction None)
       else inr (CmdRunAction (strip command) (strip thought)).
Proof.
  intros NF TI TB Hth Hcmd.
  assert (R : repair_tags (action_to_str (CmdRunAction command thought))
              = action_to_str (CmdRunAction command thought)).
  { apply repair_terminated; [|exact TI | exact TB].
    unfold terminated. cbn [open_tag close_tag].
    rewrite action_to_str_command.
    rewrite (app_assoc (thought ++ [10%N])), (app_assoc _ (10%N :: command ++ [10%N])).
    rewrite contains_middle. apply implb_true_r. }
  split; [exact R|]. rewrite R. rewrite action_to_str_command in *.
  pose proof (@formatted_span false bash_open bash_close thought command
                eq_refl eq_refl ltac:(discriminate) Hth (fun _ => Hcmd)) as H.
  rewrite (classify_command NF H), strip_newlines.
  rewrite formatted_thought by (discriminate || exact H). reflexivity.
Qed.

(** X11, witness: a command with a redirection. *)
Lemma command_round_trip_witness :
  classify (repair_tags (action_to_str
     (CmdRunAction (lit "cat < a.txt") (lit "Read it."))))
  = inr (CmdRunAction (lit "cat < a.txt") (lit "Read it.")).
Proof.
  apply (@command_round_trip (lit "cat < a.txt") (lit "Read it.")).
  - apply no_pair_search. reflexivity.
  - reflexivity.
  - reflexivity.
  - reflexivity.
  - reflexivity.
Defined.

(** X12: a code action written out by [action_to_str] and sent through the
    repair and the cascade comes back as the same code and thought, both
    trimmed, with the agent's own kernel init code in place of the
    action's, provided the text holds no finish and no command pair, no
    opening command or browse tag without its closing tag, the thought no
    opening code tag and the code no closing code tag. *)
Theorem code_round_trip (code thought kernel_init_code : str) :
  ~ pair_in Finish
      (action_to_str (IPythonRunCellAction code thought kernel_init_code)) ->
  ~ pair_in Command
      (action_to_str (IPythonRunCellAction code thought kernel_init_code)) ->
  terminated Command
    (action_to_str (IPythonRunCellAction code thought kernel_init_code)) = true ->
  terminated Browse
    (action_to_str (IPythonRunCellAction code thought kernel_init_code)) = true ->
  contains ipython_open thought = false ->
  contains ipython_close code = false ->
  repair_tags (action_to_str (IPythonRunCellAction code thought kernel_init_code))
  = action_to_str (IPythonRunCellAction code thought kernel_init_code)
  /\ classify (repair_tags
                 (action_to_str
                    (IPythonRunCellAction code thought kernel_init_code)))
     = inr (IPythonRunCellAction (strip code) (strip thought)
              jupyter_kernel_init_code).
Proof.
  intros NF NC TC TB Hth Hcode.
  assert (R : repair_tags
                (action_to_str (IPythonRunCellAction code thought kernel_init_code))
              = action_to_str (IPythonRunCellAction code thought kernel_init_code)).
  { apply repair_terminated; [exact TC | | exact TB].
    unfold terminated. cbn [open_tag close_tag].
    rewrite action_to_str_code.
    rewrite (app_assoc (thought ++ [10%N])), (app_assoc _ (10%N :: code ++ [10%N])).
    rewrite contains_middle. apply implb_true_r. }
  split; [exact R|]. rewrite R. rewrite action_to_str_code in *.
  pose proof (@formatted_span false ipython_open ipython_close thought code
                eq_refl eq_refl ltac:(discriminate) Hth (fun _ => Hcode)) as H.
  rewrite (classify_code NF NC H), strip_newlines.
  rewrite formatted_thought by (discriminate || exact H). reflexivity.
Qed.

(** X12, witness: a code cell with a comparison. *)
Lemma code_round_trip_witness :
  classify (repair_tags (action_to_str
     (IPythonRunCellAction (lit "print(1 < 2)") (lit "Check.") [])))
  = inr (IPythonRunCellAction (lit "print(1 < 2)") (lit "Check.")
           jupyter_kernel_init_code).
Proof.
  apply (@code_round_trip (lit "print(1 < 2)") (lit "Check.") []).
  - apply no_pair_search. reflexivity.
  - apply no_pair_search. reflexivity.
  - reflexivity.
  - reflexivity.
  - reflexivity.
  - reflexivity.
Defined.

(** X13: a browse action written out by [action_to_str] and sent through
    the repair and the cascade comes back as the same browser actions and
    thought, both trimmed, provided the text holds no finish, command or
    code pair, no opening command or code tag without its closing tag,
    and the thought no opening browse tag; the browser actions may hold
    the closing browse tag, the greedy match runs to the last one. *)
Theorem browse_round_trip (browser_actions thought : str) :
  ~ pair_in Finish (action_to_str (BrowseInteractiveAction browser_actions thought)) ->
  ~ pair_in Command (action_to_str (BrowseInteractiveAction browser_actions thought)) ->
  ~ pair_in Code (action_to_str (BrowseInteractiveAction browser_actions thought)) ->
  terminated Command
    (action_to_str (BrowseInteractiveAction browser_actions thought)) = true ->
  terminated Code
    (action_to_str (BrowseInteractiveAction browser_actions thought)) = true ->
  contains browse_open thought = false ->
  repair_tags (action_to_str (BrowseInteractiveAction browser_actions thought))
  = action_to_str (BrowseInteractiveAction browser_actions thought)
  /\ classify (repair_tags
                 (action_to_str (BrowseInteractiveAction browser_actions thought)))
     = inr (BrowseInteractiveAction (strip browser_actions) (strip thought)).
Proof.
  intros NF NC NI TC TI Hth.
  assert (R : repair_tags
                (action_to_str (BrowseInteractiveAction browser_actions thought))
              = action_to_str (BrowseInteractiveAction browser_actions thought)).
  { apply repair_terminated; [exact TC | exact TI |].
    unfold terminated. cbn [open_tag close_tag].
    rewrite action_to_str_browse.
    rewrite (app_assoc (thought ++ [10%N])),
      (app_assoc _ (10%N :: browser_actions ++ [10%N])).
    rewrite contains_middle. apply implb_true_r. }
  split; [exact R|]. rewrite R. rewrite action_to_str_browse in *.
  pose proof (@formatted_span true browse_open browse_close thought
                browser_actions eq_refl eq_refl ltac:(discriminate) Hth
                ltac:(discriminate)) as H.
  rewrite (classify_browse NF NC NI H), strip_newlines, app_nil_r.
  rewrite strip_snoc_space by reflexivity. reflexivity.
Qed.

(** X13, witness: browser actions that hold the closing tag. *)
Lemma browse_round_trip_witness :
  classify (repair_tags (action_to_str
     (BrowseInteractiveAction
        (lit "fill('q', '</execute_browse>')") (lit "Search."))))
  = inr (BrowseInteractiveAction
           (lit "fill('q', '</execute_browse>')") (lit "Search.")).
Proof.
  apply (@browse_round_trip
           (lit "fill('q', '</execute_browse>')") (lit "Search.")).
  - apply no_pair_search. reflexivity.
  - apply no_pair_search. reflexivity.
  - apply no_pair_search. reflexivity.
  - reflexivity.
  - reflexivity.
  - reflexivity.
Defined.

(** ** A response cut at the stop sequence *)

(** A tag that starts before the end of [a] in [a ++ X], [X] starting with
    [<], lies in [a]: it holds no second [<]. *)
Lemma occurs_before_tag (T X a : str) (j : nat) :
  hd_error T = Some 60%N -> existsb (N.eqb 60) (tl T) = false ->
  hd_error X = Some 60%N ->
  occurs_at T (a ++ X) j -> j < List.length a -> occurs_at T a j.
Proof.
  destruct T as [|t0 t']; [discriminate|]. destruct X as [|x0 x']; [discriminate|].
  cbn [hd_error tl]. intros [= ->] Ht [= ->].
  revert j; induction a as [|c a IH]; intros j H Hj; cbn [List.length] in Hj;
    [lia|].
  destruct j as [|j].
  - apply occurs_at_0. apply occurs_at_0 in H. cbn [app startswith] in *.
    apply andb_true_iff in H as [-> H]. cbn [andb].
    exact (startswith_before_lt _ _ _ Ht H).
  - pose proof (proj1 (occurs_at_S (60%N :: t') c (a ++ 60%N :: x') j) H) as H'.
    apply occurs_at_S, IH; [exact H' | lia].
Qed.

(** X14: when the model stops at the stop sequence, right after the body
    of a command, the repaired text is read as that command: for a text
    made of a thought, the opening command tag and a body, with no closing
    command tag, no opening finish, code or browse tag and no opening
    command tag in the thought, the result is the trimmed body as command
    and the trimmed thought (a finish action when the body is [exit]). *)
Theorem unterminated_command (thought body : str) :
  contains finish_open (thought ++ bash_open ++ body) = false ->
  contains bash_open thought = false ->
  contains bash_close (thought ++ bash_open ++ body) = false ->
  contains ipython_open (thought ++ bash_open ++ body) = false ->
  contains browse_open (thought ++ bash_open ++ body) = false ->
  repair_tags (thought ++ bash_open ++ body)
  = thought ++ bash_open ++ body ++ bash_close
  /\ classify (repair_tags (thought ++ bash_open ++ body))
     = if str_eqb (strip body) (lit "exit")
       then inr (AgentFinishAction None)
       else inr (CmdRunAction (strip body) (strip thought)).
Proof.
  intros HF Hth HC HI HB.
  assert (R : repair_tags (thought ++ bash_open ++ body)
              = thought ++ bash_open ++ body ++ bash_close ++ []).
  { rewrite repair_tags_eq. unfold closing_if_unterminated.
    change (exec_open (lit "bash")) with bash_open.
    change (exec_close (lit "bash")) with bash_close.
    change (exec_open (lit "ipython")) with ipython_open.
    change (exec_open (lit "browse")) with browse_open.
    rewrite contains_middle, HC, HI, HB. cbn [andb negb].
    rewrite <- !app_assoc. reflexivity. }
  split; [rewrite R, app_nil_r; reflexivity|].
  rewrite R.
  assert (NF : ~ pair_in Finish (thought ++ bash_open ++ body ++ bash_close ++ [])).
  { intros P. apply pair_has_open in P. cbn [open_tag] in P.
    rewrite app_nil_r in P.
    replace (thought ++ bash_open ++ body ++ bash_close)
      with ((thought ++ bash_open ++ body) ++ bash_close) in P
      by (rewrite <- !app_assoc; reflexivity).
    rewrite contains_app_tag in P by reflexivity. congruence. }
  assert (H : matched_span false bash_open bash_close
                (thought ++ bash_open ++ body ++ bash_close ++ [])
                thought body []).
  { split; [reflexivity|]. split; apply find_from_Some; split.
    - exists thought, (body ++ bash_close ++ []). auto.
    - intros j Hj. destruct (Nat.le_gt_cases (List.length thought) j) as [|Hlt];
        [assumption|].
      apply (@occurs_before_tag bash_open (bash_open ++ body ++ bash_close ++ [])
               thought j eq_refl eq_refl eq_refl)
        in Hj; [|exact Hlt].
      destruct (@not_contained _ _ j Hth Hj).
    - exists body, []. auto.
    - intros j Hj. destruct (Nat.le_gt_cases (List.length body) j) as [|Hlt];
        [assumption|].
      apply (@occurs_before_tag bash_close (bash_close ++ []) body j
               eq_refl eq_refl eq_refl)
        in Hj; [|exact Hlt].
      exfalso. apply (@not_contained _ _ (List.length (thought ++ bash_open) + j) HC).
      destruct Hj as (p & q & -> & <-).
      exists ((thought ++ bash_open) ++ p), q. rewrite !length_app, <- !app_assoc.
      split; [reflexivity | lia]. }
  rewrite (classify_command NF H).
  replace (thought ++ bash_open ++ body ++ bash_close ++ [])
    with (thought ++ (bash_open ++ body ++ bash_close) ++ [])
    by (rewrite <- !app_assoc; reflexivity).
  rewrite replace_once.
  - rewrite app_nil_r. reflexivity.
  - discriminate.
  - intros j (p & q & Hj & <-).
    destruct H as (_ & F & _). apply find_from_Some in F as [_ Hmin].
    apply Hmin. exists p, ((body ++ bash_close) ++ q).
    rewrite <- !app_assoc in *. rewrite <- Hj. auto.
  - reflexivity.
Qed.

(** X14, witness: a grep cut at the stop sequence. *)
Lemma unterminated_command_witness :
  classify (repair_tags (lit "Let me look. " ++ bash_open ++ lit "
grep -rn 'x < y' src"))
  = inr (CmdRunAction (lit "grep -rn 'x < y' src") (lit "Let me look.")).
Proof.
  apply (@unterminated_command (lit "Let me look. ") (lit "
grep -rn 'x < y' src")); reflexivity.
Defined.

(** ** Step controller, continued *)

Module StepFacts.

Lemma str_eqb_neq_false (s t : str) : s <> t -> str_eqb s t = false.
Proof.
  intros H. destruct (str_eqb s t) eqn:E; [|reflexivity].
  apply str_eqb_eq in E. contradiction.
Qed.

Lemma rstrip_snoc_char (y : str) (c : char) :
  isspace c = false -> rstrip (y ++ [c]) = y ++ [c].
Proof.
  intros Hc. unfold rstrip. rewrite rev_app_distr. cbn [rev app lstrip].
  rewrite Hc. cbn [rev]. rewrite rev_involutive. reflexivity.
Qed.

(** A content with the reminder at its end never trims to [/exit]: it
    ends with a full stop. *)
Lemma reminder_not_exit (x : str) (st : State) :
  str_eqb (strip (x ++ reminder st)) (lit "/exit") = false.
Proof.
  apply str_eqb_neq_false. unfold reminder.
  change (lit " turns left to complete the task.")
    with (lit " turns left to complete the task" ++ [46%N]).
  rewrite !app_assoc. unfold strip.
  rewrite lstrip_snoc by reflexivity. rewrite rstrip_snoc_char by reflexivity.
  change (lit "/exit") with (lit "/exi" ++ [116%N]).
  intros E. apply app_inj_tail in E as [_ E]. discriminate.
Qed.

Lemma sum_Z_acc (l : list Z) (a : Z) :
  fold_left Z.add l a = (a + sum_Z l)%Z.
Proof.
  unfold sum_Z. revert a; induction l as [|x l IH]; intros a; cbn [fold_left].
  - lia.
  - rewrite (IH (a + x)%Z), (IH (0 + x)%Z). lia.
Qed.

Lemma sum_Z_cons (x : Z) (l : list Z) : sum_Z (x :: l) = (x + sum_Z l)%Z.
Proof. unfold sum_Z at 1. cbn [fold_left]. rewrite sum_Z_acc. lia. Qed.

Lemma sum_len_nonneg (ms : list Message) :
  (0 <= sum_Z (List.map (fun m => len (content m)) ms))%Z.
Proof.
  induction ms as [|m ms IH]; [reflexivity|].
  cbn [List.map]. rewrite sum_Z_cons. unfold len at 1. lia.
Qed.

End StepFacts.
Import StepFacts.

Lemma fold_event_messages (events : list Event) (acc : list Message) :
  fold_left
    (fun messages event =>
       match event_message event with
       | Some message => messages ++ [message]
       | None => messages
       end) events acc
  = acc ++ event_messages events.
Proof.
  revert acc; induction events as [|e events IH]; intros acc;
    cbn [fold_left event_messages flat_map].
  - symmetry. apply app_nil_r.
  - rewrite IH. destruct (event_message e) as [m|].
    + rewrite <- app_assoc. reflexivity.
    + reflexivity.
Qed.

Lemma history_messages_eq (prompt : Prompt) (st : State) :
  history_messages prompt st
  = {| role := system; content := system_message prompt |}
      :: {| role := user; content := in_context_example prompt |}
      :: event_messages (history st).
Proof. unfold history_messages. rewrite fold_event_messages. reflexivity. Qed.

(** The two tests for [/exit], in [_get_messages] before the reminder and
    in [step] after it, always agree. *)
Lemma exit_check_agrees (prompt : Prompt) (st : State) :
  match latest_user (_get_messages prompt st) with
  | Some m => is_exit m
  | None => false
  end = exit_pending prompt st.
Proof.
  unfold exit_pending.
  destruct (last_user_exists _ (history_has_user prompt st))
    as (pre & m & post & Hh & Hm & Hpost).
  rewrite (@get_messages_split prompt st pre post m Hh Hm Hpost), Hh.
  rewrite (@latest_user_split pre post m Hm Hpost).
  destruct (is_exit m) eqn:E.
  - rewrite (@latest_user_split pre post m Hm Hpost). exact E.
  - rewrite (@latest_user_split pre post
               {| role := user; content := content m ++ reminder st |}
               eq_refl Hpost).
    apply reminder_not_exit.
Qed.

Lemma step_eq (prompt : Prompt) (st : State) :
  step prompt st
  = if exit_pending prompt st then Return (AgentFinishAction None) st
    else Completion (step_request prompt st)
           (fun response =>
              match parse_response response with
              | inl e => Raise e st
              | inr action_str =>
                  let st' :=
                    {| history := history st; iteration := iteration st;
                       max_iterations := max_iterations st;
                       num_of_chars :=
                         num_of_chars st
                         + (sum_Z (List.map (fun m => len (content m))
                                     (_get_messages prompt st))
                            + len action_str) |} in
                  match classify action_str with
                  | inl e => Raise e st'
                  | inr a => Return a st'
                  end
              end).
Proof. unfold step. rewrite exit_check_agrees. reflexivity. Qed.

(** The system message stays first and untouched. *)
Lemma get_messages_head (prompt : Prompt) (st : State) :
  exists rest,
    _get_messages prompt st
    = {| role := system; content := system_message prompt |} :: rest.
Proof.
  destruct (last_user_exists _ (history_has_user prompt st))
    as (pre & m & post & Hh & Hm & Hpost).
  rewrite (@get_messages_split prompt st pre post m Hh Hm Hpost).
  rewrite history_messages_eq in Hh.
  destruct pre as [|p pre].
  - injection Hh as <- _. discriminate.
  - injection Hh as <- _.
    destruct (is_exit m); eexists; reflexivity.
Qed.

Lemma get_messages_roles (prompt : Prompt) (st : State) :
  List.map role (_get_messages prompt st)
  = List.map role (history_messages prompt st).
Proof.
  destruct (last_user_exists _ (history_has_user prompt st))
    as (pre & m & post & Hh & Hm & Hpost).
  rewrite (@get_messages_split prompt st pre post m Hh Hm Hpost), Hh.
  destruct (is_exit m); [reflexivity|].
  rewrite !map_app. cbn [List.map role]. rewrite Hm. reflexivity.
Qed.

(** X15: the list sent to the model has one message per event that has
    one, in the order of the history, after the system message and the
    worked example; the reminder changes no role and leaves the system
    message first, as it was. *)
Theorem get_messages_structure (prompt : Prompt) (st : State) :
  history_messages prompt st
  = {| role := system; content := system_message prompt |}
      :: {| role := user; content := in_context_example prompt |}
      :: event_messages (history st)
  /\ List.map role (_get_messages prompt st)
     = system :: user :: List.map role (event_messages (history st))
  /\ List.length (_get_messages prompt st)
     = 2 + List.length (event_messages (history st))
  /\ hd_error (_get_messages prompt st)
     = Some {| role := system; content := system_message prompt |}.
Proof.
  split; [apply history_messages_eq|].
  assert (R : List.map role (_get_messages prompt st)
              = system :: user :: List.map role (event_messages (history st))).
  { rewrite get_messages_roles, history_messages_eq. reflexivity. }
  split; [exact R|]. split.
  - rewrite <- (length_map role), R. cbn [List.length]. rewrite length_map.
    reflexivity.
  - destruct (get_messages_head prompt st) as [rest ->]. reflexivity.
Qed.

(** X16: whether [step] short-circuits is decided by the history alone:
    it returns the finish action, with the state untouched, exactly when
    the last [user] message before the reminder trims to [/exit]; the
    reminder can neither hide nor fake an [/exit].  Otherwise it sends the
    assembled messages with the three stop sequences and temperature 0. *)
Theorem step_short_circuit_iff (prompt : Prompt) (st : State) :
  (exit_pending prompt st = true <->
   step prompt st = Return (AgentFinishAction None) st)
  /\ (exit_pending prompt st = false <->
      exists k, step prompt st = Completion (step_request prompt st) k)
  /\ (forall x, is_exit {| role := user; content := x ++ reminder st |} = false).
Proof.
  rewrite step_eq. destruct (exit_pending prompt st).
  - split; [split; auto|]. split; [|intros x; apply reminder_not_exit].
    split; [discriminate | intros [k E]; discriminate].
  - split; [split; discriminate|]. split; [|intros x; apply reminder_not_exit].
    split; [eauto | reflexivity].
Qed.

(** X17: running a step calls the model at most once: not at all when an
    [/exit] is pending, once otherwise, whatever the client answers. *)
Theorem step_calls_model_once (prompt : Prompt) (st : State) (c : Client)
    (l : client_state c) (calls : nat) :
  snd (run c l calls (step prompt st))
  = if exit_pending prompt st then calls else S calls.
Proof.
  rewrite step_eq. destruct (exit_pending prompt st); [reflexivity|].
  cbn [run]. destruct (completion c l (step_request prompt st)) as [response l'].
  destruct (parse_response response) as [e|action_str]; [reflexivity|].
  cbv zeta. destruct (classify action_str); reflexivity.
Qed.

(** X18: on a response without choices the step raises the [IndexError]
    of [response.choices[0]], before the counter is touched: the state is
    as it was.  On a response whose first choice holds a text the step
    raises nothing and returns an action: when a pattern with a group
    matches, the group is set. *)
Theorem step_index_error_on_no_choice (prompt : Prompt) (st : State)
    (c : Client) (l : client_state c) (calls : nat) :
  exit_pending prompt st = false ->
  (choices (fst (completion c l (step_request prompt st))) = [] ->
   fst (fst (run c l calls (step prompt st))) = Raised IndexError st)
  /\ (forall ch chs,
        choices (fst (completion c l (step_request prompt st))) = ch :: chs ->
        exists a st',
          fst (fst (run c l calls (step prompt st))) = Returned a st'
          /\ classify (repair_tags (cm_content (message ch))) = inr a).
Proof.
  intros Hx. rewrite step_eq, Hx. cbn [run].
  destruct (completion c l (step_request prompt st)) as [response l0].
  cbn [fst]. unfold parse_response. split.
  - intros ->. reflexivity.
  - intros ch chs ->. cbv zeta.
    destruct (classify_total (repair_tags (cm_content (message ch))))
      as [a E].
    rewrite E. eexists a, _. split; reflexivity.
Qed.

(** X18, witness: a client that answers without choices. *)
Lemma step_index_error_on_no_choice_witness :
  fst (fst (run silent tt 0 (step no_prompt (mkState [] 0 10 7))))
  = Raised IndexError (mkState [] 0 10 7).
Proof.
  apply (proj1 (step_index_error_on_no_choice no_prompt (mkState [] 0 10 7)
                  silent tt 0 eq_refl)).
  reflexivity.
Defined.

Lemma system_message_len (prompt : Prompt) :
  (4 <= len (system_message prompt))%Z.
Proof.
  unfold system_message, get_system_message. rewrite !len_app.
  change (len NL) with 1%Z.
  assert (forall s, 0 <= len s)%Z by (intros s; unfold len; lia).
  pose proof (H (MINIMAL_SYSTEM_PREFIX prompt)).
  pose proof (H (COMMAND_DOCS prompt)). pose proof (H (SYSTEM_SUFFIX prompt)).
  lia.
Qed.

(** X19: a step that returns an action leaves history, iteration and
    maximum as they were and never lowers the character counter; when the
    model was called the counter has grown, when [/exit] was pending the
    state is untouched. *)
Theorem step_counter_grows (prompt : Prompt) (st st' : State) (c : Client)
    (l l' : client_state c) (calls n : nat) (a : Action) :
  run c l calls (step prompt st) = (Returned a st', l', n) ->
  history st' = history st /\ iteration st' = iteration st
  /\ max_iterations st' = max_iterations st
  /\ (num_of_chars st <= num_of_chars st')%Z
  /\ (exit_pending prompt st = false -> (num_of_chars st < num_of_chars st')%Z)
  /\ (exit_pending prompt st = true -> st' = st).
Proof.
  rewrite step_eq. destruct (exit_pending prompt st).
  - intros [= _ <- _ _]. repeat split; try reflexivity; try lia; discriminate.
  - cbn [run].
    destruct (completion c l (step_request prompt st)) as [response l0].
    destruct (parse_response response) as [e|action_str]; [discriminate|].
    cbv zeta. destruct (classify action_str) as [e|a0]; [discriminate|].
    intros [= _ <- _ _]. cbn [history iteration max_iterations num_of_chars].
    assert (S : (4 <= sum_Z (List.map (fun m => len (content m))
                               (_get_messages prompt st)))%Z).
    { destruct (get_messages_head prompt st) as [rest ->].
      cbn [List.map content]. rewrite sum_Z_cons.
      pose proof (sum_len_nonneg rest). pose proof (system_message_len prompt).
      lia. }
    assert (0 <= len action_str)%Z by (unfold len; lia).
    repeat split; try reflexivity; try lia; discriminate.
Qed.

(** X19, witness: a first step answered in plain words. *)
Lemma step_counter_grows_witness :
  (num_of_chars (mkState [] 0 10 0)
   <= num_of_chars (mkState [] 0 10 (173 + 17)))%Z.
Proof.
  apply (@step_counter_grows no_prompt (mkState [] 0 10 0)
           (mkState [] 0 10 (173 + 17)) (canned (lit "What should I do?"))
           tt tt 0 1 (MessageAction (lit "What should I do?") true)).
  vm_compute. reflexivity.
Defined.

(** ** A command block that comes twice *)





